(** * Tugas-Besar/tubes.py: projectile motion with drag, RK4 and the angle sweep

    A shallow embedding of [tubes.py] over IEEE 754 binary64 numbers (Rocq's
    primitive [float], the arithmetic of Python's [float] and numpy's
    [float64]).  The numpy functions that are not IEEE operations ([np.cos],
    [np.sin], [np.deg2rad] and the power [**] on [float64]) are a parameter
    of the model, the record [libm]; [ref_libm] is a reference instance used
    to run the model.  The unbounded [while] loop of [projectile_motion] is
    modelled with fuel: [OutOfFuel] means that the loop is still running after
    [fuel] iterations. *)

From Stdlib Require Import ZArith List Bool Lia Floats.
Import ListNotations.

Set Warnings "-inexact-float".
Local Open Scope float_scope.

(** ** numpy functions outside IEEE 754 *)

Record libm : Type := Libm {
  np_cos     : float -> float;
  np_sin     : float -> float;
  np_deg2rad : float -> float;
  np_power   : float -> float -> float
}.

(** ** Outcomes of a Python call *)

Inductive exn : Type :=
| IndexError.

Inductive outcome (A : Type) : Type :=
| Returned (a : A)
| Raised (e : exn)
| OutOfFuel.

Arguments Returned {A} a.
Arguments Raised {A} e.
Arguments OutOfFuel {A}.

Definition bind {A B : Type} (c : outcome A) (k : A -> outcome B) : outcome B :=
  match c with
  | Returned a => k a
  | Raised e => Raised e
  | OutOfFuel => OutOfFuel
  end.

Notation "x <- c ;; k" := (bind c (fun x => k))
  (at level 61, c at next level, right associativity).
Notation "' p <- c ;; k" := (bind c (fun p => k))
  (at level 61, p pattern, c at next level, right associativity).

(** ** Arrays of four numbers, with numpy's element-wise operations *)

Record vec : Type := Vec { w0 : float; w1 : float; w2 : float; w3 : float }.

(** [u + v] on arrays. *)
Definition vadd (u v : vec) : vec :=
  Vec (w0 u + w0 v) (w1 u + w1 v) (w2 u + w2 v) (w3 u + w3 v).

(** [c * v] for a scalar [c] and an array [v]. *)
Definition smul (c : float) (v : vec) : vec :=
  Vec (c * w0 v) (c * w1 v) (c * w2 v) (c * w3 v).

(** [np.zeros(4)]. *)
Definition zeros4 : vec := Vec 0 0 0 0.

(** ** Constants *)

(** [10 ** (-3)] in Python is the double nearest to 0.001. *)
Definition ten_pow_m3 : float := 0.001.

Definition g : float := 9.81.
Definition alpha : float := 2.5.
Definition a : float := 6.5 * ten_pow_m3.
Definition T_0 : float := 288.
Definition m : float := 50.
Definition B : float := 2 * ten_pow_m3.
Definition v_0 : float := 1640.

(** [V = np.zeros(2)], the wind. *)
Definition V0 : float := 0.
Definition V1 : float := 0.

(** ** Integer ranges and their conversion to [float64] *)

Definition float_of_Z (z : Z) : float :=
  match z with
  | Z0 => 0
  | Zpos _ => of_uint63 (Uint63.of_Z z)
  | Zneg _ => - of_uint63 (Uint63.of_Z (- z))
  end.

(** [range(start, stop, step)] for a positive [step]; [n] bounds the number
    of elements. *)
Fixpoint range_from (n : nat) (start stop step : Z) : list Z :=
  match n with
  | O => []
  | S n' => if (start <? stop)%Z
            then start :: range_from n' (start + step) stop step
            else []
  end.

Definition py_range (start stop step : Z) : list Z :=
  range_from (Z.to_nat (stop - start)) start stop step.

(** [np.linspace(start, stop, num)] for [num > 1] and a step that is not
    zero: [i * step + start] with [step = (stop - start) / (num - 1)], the
    last element set to [stop]. *)
Definition linspace (start stop : float) (num : nat) : list float :=
  let div := Nat.pred num in
  let step := (stop - start) / float_of_Z (Z.of_nat div) in
  map (fun i => float_of_Z (Z.of_nat i) * step + start) (seq 0 div) ++ [stop].

(** [l[-k]] on a one-dimensional array, for [k >= 1]: the element at
    [len(l) - k], [IndexError] when [k] exceeds the length. *)
Definition neg_index (l : list float) (k : nat) : outcome float :=
  if (k <=? length l)%nat then
    match nth_error l (length l - k) with
    | Some x => Returned x
    | None => Raised IndexError
    end
  else Raised IndexError.

Section Model.

Variable M : libm.

(** ** The right-hand side of the equations of motion *)

Definition f (w : vec) : vec :=
  let k := 1 - a * w1 w / T_0 in
  let s := sqrt ((w2 w - V0) * 2 + (w3 w - V1) * 2) in
  if 0 <? k then
    Vec (w2 w) (w3 w)
        ((- B) / m * np_power M k alpha * (w2 w - V0) * s)
        ((- B) / m * np_power M k alpha * (w3 w - V1) * s - g)
  else
    Vec (w2 w) (w3 w) 0 (- g).

(** ** One step of the fourth-order Runge-Kutta method *)

(** The weighted sum [s1 + (2 * s2) + (2 * s3) + s4] of [RK4_step]. *)
Definition RK4_slopes (f : vec -> vec) (w : vec) (h : float) : vec :=
  let s1 := f w in
  let s2 := f (vadd w (smul (h / 2) s1)) in
  let s3 := f (vadd w (smul (h / 2) s2)) in
  let s4 := f (vadd w (smul h s3)) in
  vadd (vadd (vadd s1 (smul 2 s2)) (smul 2 s3)) s4.

Definition RK4_step (f : vec -> vec) (w : vec) (h : float) : vec :=
  let s1 := f w in
  let s2 := f (vadd w (smul (h / 2) s1)) in
  let s3 := f (vadd w (smul (h / 2) s2)) in
  let s4 := f (vadd w (smul h s3)) in
  vadd w (smul (h / 6) (vadd (vadd (vadd s1 (smul 2 s2)) (smul 2 s3)) s4)).

(** ** The launch state *)

Definition shoot (theta v0 : float) : vec :=
  Vec 0 0
      (v0 * np_cos M (np_deg2rad M theta))
      (v0 * np_sin M (np_deg2rad M theta)).

(** ** The trajectory *)

(** The [while w[1] >= 0] loop: [X] and [Y] are the arrays built so far. *)
Fixpoint flight (fuel : nat) (h : float) (w : vec) (X Y : list float)
  : outcome (list float * list float) :=
  if 0 <=? w1 w then
    match fuel with
    | O => OutOfFuel
    | S fuel' =>
        let w' := RK4_step f w h in
        flight fuel' h w' (X ++ [w0 w']) (Y ++ [w1 w'])
    end
  else Returned (X, Y).

Definition projectile_motion (fuel : nat) (h theta : float)
  : outcome (list float * list float) :=
  flight fuel h (shoot theta v_0) [] [].

(** ** The landing point, by linear interpolation on the last two samples

    The two lines that compute [m] and [x_range] in [find_optimal_angle],
    the same in both loops. *)

Definition landing_point (x_list y_list : list float) : outcome float :=
  y1 <- neg_index y_list 1 ;;
  y2 <- neg_index y_list 2 ;;
  x1 <- neg_index x_list 1 ;;
  x2 <- neg_index x_list 2 ;;
  let m := (y1 - y2) / (x1 - x2) in
  y1' <- neg_index y_list 1 ;;
  x1' <- neg_index x_list 1 ;;
  Returned ((- y1') / m + x1').

(** ** The search for the optimal angle *)

(** The variables of [find_optimal_angle]; [theta] is the loop variable of the
    first loop, which Python keeps after the loop (it is unbound before the
    loop: the initial value below is never read, the loop not being empty). *)
Record sweep : Type := Sweep {
  record        : float;
  optimal_angle : float;
  theta_list    : list float;
  range_list    : list float;
  theta         : float
}.

(** The body of the first loop. *)
Definition coarse_body (fuel : nat) (h : float) (st : sweep) (th : float)
  : outcome sweep :=
  '(x_list, y_list) <- projectile_motion fuel h th ;;
  x_range <- landing_point x_list y_list ;;
  let theta_list' := theta_list st ++ [th] in
  let range_list' := range_list st ++ [x_range] in
  if record st <=? x_range
  then Returned (Sweep x_range th theta_list' range_list' th)
  else Returned (Sweep (record st) (optimal_angle st) theta_list' range_list' th).

(** The body of the second loop: the trajectory is that of [theta]. *)
Definition refine_body (fuel : nat) (h : float) (st : sweep) (theta_small : float)
  : outcome sweep :=
  '(x_list, y_list) <- projectile_motion fuel h (theta st) ;;
  x_range <- landing_point x_list y_list ;;
  if record st <=? x_range
  then Returned (Sweep x_range theta_small (theta_list st) (range_list st) (theta st))
  else Returned st.

(** A [for] loop over [l]. *)
Fixpoint for_each {A S : Type} (body : S -> A -> outcome S) (l : list A) (st : S)
  : outcome S :=
  match l with
  | [] => Returned st
  | x :: l' => st' <- body st x ;; for_each body l' st'
  end.

Definition coarse_angles : list float := map float_of_Z (py_range 1 90 2).

Definition coarse_pass (fuel : nat) (h : float) : outcome sweep :=
  for_each (coarse_body fuel h) coarse_angles (Sweep 0 0 [] [] 0).

Definition refine_angles (st : sweep) : list float :=
  linspace (optimal_angle st - 2) (optimal_angle st + 2) 41.

Definition refine_pass (fuel : nat) (h : float) (st : sweep) : outcome sweep :=
  for_each (refine_body fuel h) (refine_angles st) st.

Definition find_optimal_angle (fuel : nat) (h : float)
  : outcome (list float * list float * float) :=
  st <- coarse_pass fuel h ;;
  st' <- refine_pass fuel h st ;;
  Returned (theta_list st', range_list st', optimal_angle st').

End Model.

(** ** A reference instance of the numpy functions

    An instance in binary64 arithmetic, to run the model: the cosine and the
    sine by their Taylor series (exact at 0, and within the last digits of
    the library functions on the angles of the program), the conversion to
    radians as the product by pi / 180, the power as [x * x * sqrt x].  The
    theorems below hold for every instance; only the evaluations at concrete
    inputs use this one. *)

(** Horner evaluation of the Taylor series of the cosine and of the sine,
    [n] terms, [k] the index of the first factor. *)
Fixpoint taylor (n : nat) (k : float) (x2 : float) : float :=
  match n with
  | O => 1
  | S n' => 1 - x2 / (k * (k + 1)) * taylor n' (k + 2) x2
  end.

Definition ref_cos (x : float) : float := taylor 20 1 (x * x).
Definition ref_sin (x : float) : float := x * taylor 20 2 (x * x).
Definition ref_deg2rad (x : float) : float := x * (3.141592653589793 / 180).

(** The power, for the only exponent of the program, 2.5. *)
Definition ref_power (x y : float) : float := x * x * sqrt x.

Definition ref_libm : libm := Libm ref_cos ref_sin ref_deg2rad ref_power.

(** ** Definitions for the statements *)

(** The relative speed as the specification words it, with each velocity
    difference doubled. *)
Definition relative_speed_doubled (vx vy : float) : float :=
  sqrt ((vx - V0) * 2 + (vy - V1) * 2).

(** The relative speed of a quadratic drag, with each velocity difference
    squared. *)
Definition relative_speed_squared (vx vy : float) : float :=
  sqrt ((vx - V0) * (vx - V0) + (vy - V1) * (vy - V1)).

(** The radicand of the relative speed at a state. *)
Definition radicand (w : vec) : float := (w2 w - V0) * 2 + (w3 w - V1) * 2.

(** The state whose four components are not-a-number. *)
Definition nan4 : vec := Vec nan nan nan nan.

(** The air-density factor at a state. *)
Definition density_factor (w : vec) : float := 1 - a * w1 w / T_0.

(** The right-hand side as the specification words it, for a given relative
    speed [speed vx vy]. *)
Definition rhs_with (speed : float -> float -> float) (M : libm) (w : vec)
  : vec :=
  let k := density_factor w in
  let s := speed (w2 w) (w3 w) in
  if 0 <? k then
    Vec (w2 w) (w3 w)
        ((- B) / m * np_power M k alpha * (w2 w - V0) * s)
        ((- B) / m * np_power M k alpha * (w3 w - V1) * s - g)
  else Vec (w2 w) (w3 w) 0 (- g).

(** Every component is a finite number. *)
Definition all_finite (v : vec) : bool :=
  is_finite (w0 v) && is_finite (w1 v) && is_finite (w2 v) && is_finite (w3 v).

(** [y] is [x], or [x] is -0.0 and [y] is +0.0. *)
Definition same_number (x y : float) : Prop :=
  y = x \/ (x = neg_zero /\ y = zero).

(** The state after [n] Runge-Kutta steps of length [h] from [w]. *)
Fixpoint state_after (M : libm) (n : nat) (h : float) (w : vec) : vec :=
  match n with
  | O => w
  | S n' => state_after M n' h (RK4_step (f M) w h)
  end.

(** The landing range of the launch at the angle [th]: the trajectory, then
    the interpolation. *)
Definition range_at (M : libm) (fuel : nat) (h th : float) : outcome float :=
  '(x_list, y_list) <- projectile_motion M fuel h th ;;
  landing_point x_list y_list.

(** The landing range read off the last two samples of a trajectory: the
    slope [m] of the last segment, then [- y_last / m + x_last]. *)
Definition interpolation (x_list y_list : list float) : float :=
  let x1 := nth (length x_list - 1) x_list 0 in
  let x2 := nth (length x_list - 2) x_list 0 in
  let y1 := nth (length y_list - 1) y_list 0 in
  let y2 := nth (length y_list - 2) y_list 0 in
  let m := (y1 - y2) / (x1 - x2) in
  (- y1) / m + x1.

(** The update of the record by one (angle, range) pair, with [>=]. *)
Definition track (best : float * float) (p : float * float) : float * float :=
  if fst best <=? snd p then (snd p, fst p) else best.

(** ** Evaluation with the samples accumulated in reverse

    The same loop with the arrays built by consing, reversed at the end; it
    is equal to [flight] and linear in the number of samples. *)

Fixpoint flight_acc (M : libm) (fuel : nat) (h : float) (w : vec)
    (Xr Yr : list float) : outcome (list float * list float) :=
  if 0 <=? w1 w then
    match fuel with
    | O => OutOfFuel
    | S fuel' =>
        let w' := RK4_step (f M) w h in
        flight_acc M fuel' h w' (w0 w' :: Xr) (w1 w' :: Yr)
    end
  else Returned (rev_append Xr [], rev_append Yr []).

Definition range_at_acc (M : libm) (fuel : nat) (h th : float) : outcome float :=
  '(x_list, y_list) <- flight_acc M fuel h (shoot M th v_0) [] [] ;;
  landing_point x_list y_list.

Definition coarse_body_acc (M : libm) (fuel : nat) (h : float) (st : sweep)
    (th : float) : outcome sweep :=
  x_range <- range_at_acc M fuel h th ;;
  Returned (Sweep (fst (track (record st, optimal_angle st) (th, x_range)))
                  (snd (track (record st, optimal_angle st) (th, x_range)))
                  (theta_list st ++ [th]) (range_list st ++ [x_range]) th).

Definition coarse_pass_acc (M : libm) (fuel : nat) (h : float) : outcome sweep :=
  for_each (coarse_body_acc M fuel h) coarse_angles (Sweep 0 0 [] [] 0).

(** * Facts about binary64 arithmetic *)

Module F64.

(** A finite number, zero included. *)
Definition SFfinite (x : spec_float) : bool :=
  match x with
  | S754_zero _ | S754_finite _ _ _ => true
  | _ => false
  end.

Definition SFzero (x : spec_float) : bool :=
  match x with
  | S754_zero _ => true
  | _ => false
  end.

Ltac cmp_cases :=
  repeat match goal with
  | H : context [Z.compare ?x ?y] |- _ => destruct (Z.compare_spec x y)
  | |- context [Z.compare ?x ?y] => destruct (Z.compare_spec x y)
  | H : context [Pos.compare_cont Eq ?x ?y] |- _ =>
      change (Pos.compare_cont Eq x y) with (Pos.compare x y) in H;
      destruct (Pos.compare_spec x y)
  | |- context [Pos.compare_cont Eq ?x ?y] =>
      change (Pos.compare_cont Eq x y) with (Pos.compare x y);
      destruct (Pos.compare_spec x y)
  end;
  simpl in *; subst; try discriminate; try reflexivity; try lia.

Lemma SFcompare_swap (x y : spec_float) :
  SFcompare y x = option_map CompOpp (SFcompare x y).
Proof.
  destruct x as [sx|sx| |sx mx ex], y as [sy|sy| |sy my ey]; simpl;
    try reflexivity;
    try (destruct sx; reflexivity); try (destruct sy; reflexivity);
    try (destruct sx, sy; reflexivity).
  destruct sx, sy; simpl; try reflexivity; cmp_cases.
Qed.

Lemma SFleb_trans (x y z : spec_float) :
  SFleb x y = true -> SFleb y z = true -> SFleb x z = true.
Proof.
  unfold SFleb.
  destruct x as [sx|sx| |sx mx ex], y as [sy|sy| |sy my ey],
           z as [sz|sz| |sz mz ez]; simpl;
    try discriminate; try reflexivity;
    try (destruct sx; simpl; try discriminate; try reflexivity);
    try (destruct sy; simpl; try discriminate; try reflexivity);
    try (destruct sz; simpl; try discriminate; try reflexivity);
    intros H1 H2; cmp_cases.
Qed.

Lemma SFleb_ltb_trans (x y z : spec_float) :
  SFleb x y = true -> SFltb y z = true -> SFltb x z = true.
Proof.
  unfold SFleb, SFltb.
  destruct x as [sx|sx| |sx mx ex], y as [sy|sy| |sy my ey],
           z as [sz|sz| |sz mz ez]; simpl;
    try discriminate; try reflexivity;
    try (destruct sx; simpl; try discriminate; try reflexivity);
    try (destruct sy; simpl; try discriminate; try reflexivity);
    try (destruct sz; simpl; try discriminate; try reflexivity);
    intros H1 H2; cmp_cases.
Qed.

Lemma SFcompare_refl (x : spec_float) :
  x <> S754_nan -> SFcompare x x = Some Eq.
Proof.
  destruct x as [s|s| |s mx ex]; simpl; intros H;
    try reflexivity; try congruence; destruct s; try reflexivity;
    rewrite Z.compare_refl, Pos.compare_cont_refl; reflexivity.
Qed.

Lemma SFcompare_None (x y : spec_float) :
  SFcompare x y = None -> x = S754_nan \/ y = S754_nan.
Proof.
  destruct x as [sx|sx| |sx mx ex], y as [sy|sy| |sy my ey]; simpl;
    auto; discriminate.
Qed.

(** *** Comparisons *)

Lemma leb_trans (x y z : float) :
  (x <=? y) = true -> (y <=? z) = true -> (x <=? z) = true.
Proof. rewrite !leb_spec. apply SFleb_trans. Qed.

Lemma leb_ltb_trans (x y z : float) :
  (x <=? y) = true -> (y <? z) = true -> (x <? z) = true.
Proof. rewrite leb_spec, !ltb_spec. apply SFleb_ltb_trans. Qed.

Lemma is_nan_spec (x : float) :
  is_nan x = true <-> Prim2SF x = S754_nan.
Proof.
  unfold is_nan. rewrite eqb_spec. unfold SFeqb. split.
  - intros H. destruct (SFcompare (Prim2SF x) (Prim2SF x)) as [c|] eqn:E.
    + destruct (Prim2SF x) as [s|s| |s mx ex]; try reflexivity;
        rewrite SFcompare_refl in E by discriminate;
        injection E as <-; discriminate.
    + apply SFcompare_None in E. tauto.
  - intros ->. reflexivity.
Qed.

Lemma is_nan_false (x : float) :
  is_nan x = false <-> Prim2SF x <> S754_nan.
Proof.
  rewrite <- is_nan_spec. destruct (is_nan x); split; congruence.
Qed.

Lemma leb_refl (x : float) : is_nan x = false -> (x <=? x) = true.
Proof.
  rewrite is_nan_false, leb_spec. intros H. unfold SFleb.
  rewrite SFcompare_refl by assumption. reflexivity.
Qed.

Lemma ltb_irrefl (x : float) : (x <? x) = false.
Proof.
  rewrite ltb_spec. unfold SFltb.
  destruct (SFcompare (Prim2SF x) (Prim2SF x)) as [c|] eqn:E; [|reflexivity].
  rewrite SFcompare_refl in E; [injection E as <-; reflexivity|].
  intros N. rewrite N in E. discriminate.
Qed.

Lemma leb_not_nan (x y : float) :
  (x <=? y) = true -> is_nan x = false /\ is_nan y = false.
Proof.
  rewrite leb_spec, !is_nan_false. unfold SFleb. intros H.
  split; intros N; rewrite N in H; simpl in H;
    try discriminate; destruct (Prim2SF x); discriminate.
Qed.

Lemma ltb_leb (x y : float) : (x <? y) = true -> (x <=? y) = true.
Proof.
  rewrite ltb_spec, leb_spec. unfold SFltb, SFleb.
  destruct (SFcompare (Prim2SF x) (Prim2SF y)) as [[]|]; congruence.
Qed.

Lemma leb_ltb_false (x y : float) : (x <=? y) = true -> (y <? x) = false.
Proof.
  rewrite ltb_spec, leb_spec. unfold SFltb, SFleb.
  rewrite (SFcompare_swap (Prim2SF x) (Prim2SF y)).
  destruct (SFcompare (Prim2SF x) (Prim2SF y)) as [[]|]; simpl; congruence.
Qed.

Lemma leb_false_cases (x y : float) :
  (x <=? y) = false ->
  (y <? x) = true \/ is_nan x = true \/ is_nan y = true.
Proof.
  rewrite ltb_spec, leb_spec, !is_nan_spec. unfold SFltb, SFleb.
  rewrite (SFcompare_swap (Prim2SF x) (Prim2SF y)).
  destruct (SFcompare (Prim2SF x) (Prim2SF y)) as [[]|] eqn:E; simpl;
    try discriminate; auto.
  intros _. right. apply SFcompare_None. assumption.
Qed.

Lemma ltb_false_cases (x y : float) :
  (x <? y) = false ->
  (y <=? x) = true \/ is_nan x = true \/ is_nan y = true.
Proof.
  rewrite ltb_spec, leb_spec, !is_nan_spec. unfold SFltb, SFleb.
  rewrite (SFcompare_swap (Prim2SF x) (Prim2SF y)).
  destruct (SFcompare (Prim2SF x) (Prim2SF y)) as [[]|] eqn:E; simpl;
    try discriminate; auto.
  intros _. right. apply SFcompare_None. assumption.
Qed.

(** *** Finite numbers *)

Lemma is_finite_spec (x : float) : is_finite x = SFfinite (Prim2SF x).
Proof.
  unfold is_finite, is_infinity.
  destruct (is_nan x) eqn:N.
  - apply is_nan_spec in N. rewrite N. reflexivity.
  - apply is_nan_false in N. rewrite eqb_spec, abs_spec.
    change (Prim2SF infinity) with (S754_infinity false).
    destruct (Prim2SF x) as [s|s| |s mx ex]; try reflexivity; congruence.
Qed.

(** *** Zero times a finite number, and a number plus zero *)

Lemma mul_zero_finite (z d : float) :
  SFzero (Prim2SF z) = true -> is_finite d = true ->
  SFzero (Prim2SF (z * d)) = true.
Proof.
  rewrite is_finite_spec, mul_spec. unfold SF64mul.
  destruct (Prim2SF z); try discriminate.
  destruct (Prim2SF d); try discriminate; reflexivity.
Qed.

Lemma add_zero (w z : float) :
  SFzero (Prim2SF z) = true ->
  w + z = w \/ (w = neg_zero /\ w + z = zero).
Proof.
  intros Hz.
  assert (H : Prim2SF (w + z) = Prim2SF w \/
              (Prim2SF w = S754_zero true /\ Prim2SF (w + z) = S754_zero false)).
  { rewrite add_spec. unfold SF64add.
    destruct (Prim2SF z) as [sz| | |]; try discriminate.
    destruct (Prim2SF w) as [s|s| |s mx ex]; simpl; auto.
    destruct s, sz; auto. }
  destruct H as [H|[H1 H2]].
  - left. apply Prim2SF_inj. assumption.
  - right. split; apply Prim2SF_inj; assumption.
Qed.

(** *** Not-a-number *)

Lemma sqrt_negative (x : float) : (x <? 0) = true -> sqrt x = nan.
Proof.
  rewrite ltb_spec. change (Prim2SF 0) with (S754_zero false).
  intros H. apply Prim2SF_inj. rewrite sqrt_spec.
  change (Prim2SF nan) with S754_nan.
  destruct (Prim2SF x) as [s|s| |s mx ex]; try discriminate;
    destruct s; try discriminate; reflexivity.
Qed.

Lemma mul_nan_r (x : float) : x * nan = nan.
Proof.
  apply Prim2SF_inj. rewrite mul_spec.
  change (Prim2SF nan) with S754_nan.
  destruct (Prim2SF x); reflexivity.
Qed.

Lemma sub_nan_l (x : float) : nan - x = nan.
Proof.
  apply Prim2SF_inj. rewrite sub_spec.
  change (Prim2SF nan) with S754_nan. reflexivity.
Qed.

(** *** Division by the difference of two equal numbers *)

Lemma sub_of_equal (x y : float) :
  (x =? y) = true ->
  SFzero (Prim2SF (x - y)) = true \/ Prim2SF (x - y) = S754_nan.
Proof.
  rewrite eqb_spec, sub_spec. unfold SFeqb, SF64sub.
  destruct (Prim2SF x) as [sx|sx| |sx mx ex], (Prim2SF y) as [sy|sy| |sy my ey];
    simpl; try discriminate;
    try (destruct sx; discriminate); try (destruct sy; discriminate).
  - destruct sx, sy; auto.
  - destruct sx, sy; try discriminate; auto.
  - intros H. assert (E : sx = sy /\ ex = ey /\ mx = my).
    { destruct sx, sy; try discriminate; cmp_cases; auto. }
    destruct E as (-> & -> & ->). left.
    rewrite Z.sub_diag. reflexivity.
Qed.

Lemma div_by_zero_or_nan (x d : float) :
  SFzero (Prim2SF d) = true \/ Prim2SF d = S754_nan ->
  is_finite (x / d) = false.
Proof.
  rewrite is_finite_spec, div_spec. unfold SF64div.
  intros [H|H].
  - destruct (Prim2SF d); try discriminate.
    destruct (Prim2SF x); reflexivity.
  - rewrite H. destruct (Prim2SF x); reflexivity.
Qed.

(** *** More on not-a-number *)

Lemma add_nan_l (x : float) : nan + x = nan.
Proof.
  apply Prim2SF_inj. rewrite add_spec.
  change (Prim2SF nan) with S754_nan. reflexivity.
Qed.

Lemma add_nan_r (x : float) : x + nan = nan.
Proof.
  apply Prim2SF_inj. rewrite add_spec.
  change (Prim2SF nan) with S754_nan.
  destruct (Prim2SF x); reflexivity.
Qed.

Lemma mul_nan_l (x : float) : nan * x = nan.
Proof.
  apply Prim2SF_inj. rewrite mul_spec.
  change (Prim2SF nan) with S754_nan. reflexivity.
Qed.

Lemma div_nan_l (x : float) : nan / x = nan.
Proof.
  apply Prim2SF_inj. rewrite div_spec.
  change (Prim2SF nan) with S754_nan. reflexivity.
Qed.

Lemma div_nan_r (x : float) : x / nan = nan.
Proof.
  apply Prim2SF_inj. rewrite div_spec.
  change (Prim2SF nan) with S754_nan.
  destruct (Prim2SF x); reflexivity.
Qed.

Lemma leb_nan_r (x : float) : (x <=? nan) = false.
Proof.
  rewrite leb_spec. change (Prim2SF nan) with S754_nan.
  destruct (Prim2SF x); reflexivity.
Qed.

Lemma is_nan_eq (x : float) : is_nan x = true -> x = nan.
Proof.
  intros H. apply is_nan_spec in H. apply Prim2SF_inj. rewrite H. reflexivity.
Qed.

(** *** A quotient by zero, and by infinity *)

Definition SFinfinite (x : spec_float) : bool :=
  match x with
  | S754_infinity _ => true
  | _ => false
  end.

Lemma sub_of_equal_finite (x y : float) :
  (x =? y) = true -> is_finite x = true ->
  SFzero (Prim2SF (x - y)) = true.
Proof.
  intros E Hx. destruct (sub_of_equal x y E) as [H|H]; [assumption|].
  exfalso. revert E Hx H.
  rewrite eqb_spec, is_finite_spec, sub_spec. unfold SFeqb, SF64sub.
  destruct (Prim2SF x) as [sx|sx| |sx mx ex], (Prim2SF y) as [sy|sy| |sy my ey];
    simpl; try discriminate;
    try (destruct sx; discriminate); try (destruct sy; discriminate).
  - destruct sx, sy; discriminate.
  - intros H _. assert (E : sx = sy /\ ex = ey /\ mx = my).
    { destruct sx, sy; try discriminate; cmp_cases; auto. }
    destruct E as (-> & -> & ->). rewrite Z.sub_diag. discriminate.
Qed.

Lemma div_finite_by_zero (d z : float) :
  is_finite d = true -> (d =? 0) = false -> SFzero (Prim2SF z) = true ->
  SFinfinite (Prim2SF (d / z)) = true.
Proof.
  rewrite is_finite_spec, eqb_spec, div_spec. unfold SFeqb, SF64div.
  change (Prim2SF 0) with (S754_zero false).
  destruct (Prim2SF z); try discriminate.
  destruct (Prim2SF d); try discriminate; reflexivity.
Qed.

Lemma div_finite_by_infinity (y z : float) :
  is_finite y = true -> SFinfinite (Prim2SF z) = true ->
  SFzero (Prim2SF (- y / z)) = true.
Proof.
  rewrite is_finite_spec, div_spec, opp_spec. unfold SF64div.
  destruct (Prim2SF z); try discriminate.
  destruct (Prim2SF y); try discriminate; reflexivity.
Qed.

Lemma zero_add (z w : float) :
  SFzero (Prim2SF z) = true ->
  z + w = w \/ (w = neg_zero /\ z + w = zero).
Proof.
  intros Hz.
  assert (H : Prim2SF (z + w) = Prim2SF w \/
              (Prim2SF w = S754_zero true /\ Prim2SF (z + w) = S754_zero false)).
  { rewrite add_spec. unfold SF64add.
    destruct (Prim2SF z) as [sz| | |]; try discriminate.
    destruct (Prim2SF w) as [s|s| |s mx ex]; simpl; auto.
    destruct s, sz; auto. }
  destruct H as [H|[H1 H2]].
  - left. apply Prim2SF_inj. assumption.
  - right. split; apply Prim2SF_inj; assumption.
Qed.

End F64.

(** * The right-hand side *)

Section RHS.

Variable M : libm.

(** C10: two states that agree on the altitude and on both velocities, and
    differ in the horizontal position only, have the same derivative. *)
Theorem f_ignores_x (w w' : vec) :
  w1 w = w1 w' -> w2 w = w2 w' -> w3 w = w3 w' ->
  f M w = f M w'.
Proof.
  destruct w as [x y vx vy], w' as [x' y' vx' vy']. cbn [w1 w2 w3].
  intros -> -> ->. reflexivity.
Qed.

(** C6: when the air-density factor [k = 1 - a * altitude / T_0] is at most
    zero, the derivative is the velocity, a zero horizontal acceleration and
    the vertical acceleration [- g], without drag. *)
Theorem f_above_atmosphere (w : vec) :
  (density_factor w <=? 0) = true ->
  f M w = Vec (w2 w) (w3 w) 0 (- g).
Proof.
  intros H. apply F64.leb_ltb_false in H.
  unfold f. fold (density_factor w). rewrite H. reflexivity.
Qed.

End RHS.

(** C6 at the altitude 50000, above the modelled atmosphere. *)
Lemma f_above_atmosphere_witness :
  (density_factor (Vec 0 50000 100 (-200)) <=? 0) = true /\
  f ref_libm (Vec 0 50000 100 (-200)) = Vec 100 (-200) 0 (- g).
Proof.
  split; [reflexivity|].
  apply (f_above_atmosphere ref_libm (Vec 0 50000 100 (-200))). reflexivity.
Defined.

(** C10 on two states at the horizontal positions 0 and 1000. *)
Lemma f_ignores_x_witness :
  f ref_libm (Vec 0 100 30 40) = f ref_libm (Vec 1000 100 30 40).
Proof.
  apply (f_ignores_x ref_libm (Vec 0 100 30 40) (Vec 1000 100 30 40));
    reflexivity.
Defined.

(** C2: at every state the right-hand side is the one of the specification
    with the relative speed [s] the square root of the doubled velocity
    differences; it is not the one with the squared differences, from which
    it differs at the velocity (3, 4). *)
Theorem f_relative_speed_doubled :
  (forall (M : libm) (w : vec), f M w = rhs_with relative_speed_doubled M w) /\
  f ref_libm (Vec 0 0 3 4) <> rhs_with relative_speed_squared ref_libm (Vec 0 0 3 4).
Proof.
  split; [reflexivity|]. intros H.
  assert (E : (w2 (f ref_libm (Vec 0 0 3 4))
               =? w2 (rhs_with relative_speed_squared ref_libm (Vec 0 0 3 4)))
              = false) by (vm_compute; reflexivity).
  rewrite H in E. vm_compute in E. discriminate.
Qed.

(** At the velocity (3, 4) the doubled speed is the root of 14, the squared
    one is 5. *)
Lemma relative_speed_3_4 :
  relative_speed_doubled 3 4 = sqrt 14 /\
  relative_speed_squared 3 4 = 5 /\
  (relative_speed_doubled 3 4 =? relative_speed_squared 3 4) = false.
Proof. repeat split. Qed.

(** X4: if the radicand of the relative speed is negative (the velocity
    components sum to less than zero) inside the modelled atmosphere, both
    accelerations are not-a-number. *)
Lemma f_nan_accelerations (M : libm) (w : vec) :
  ((w2 w - V0) * 2 + (w3 w - V1) * 2 <? 0) = true ->
  (0 <? density_factor w) = true ->
  w2 (f M w) = nan /\ w3 (f M w) = nan.
Proof.
  intros Hs Hk. unfold f. fold (density_factor w). rewrite Hk. simpl.
  rewrite (F64.sqrt_negative _ Hs), !F64.mul_nan_r, F64.sub_nan_l.
  split; reflexivity.
Qed.

(** * The Runge-Kutta step *)

Lemma RK4_step_slopes (rhs : vec -> vec) (w : vec) (h : float) :
  RK4_step rhs w h = vadd w (smul (h / 6) (RK4_slopes rhs w h)).
Proof. reflexivity. Qed.

(** C7, as the code has it: a step of length 0 gives back every component of
    the state (a -0.0 may come back as +0.0), provided the weighted sum of the
    four slopes is finite in every component. *)
Theorem RK4_step_zero_h (rhs : vec -> vec) (w : vec) :
  all_finite (RK4_slopes rhs w 0) = true ->
  same_number (w0 w) (w0 (RK4_step rhs w 0)) /\
  same_number (w1 w) (w1 (RK4_step rhs w 0)) /\
  same_number (w2 w) (w2 (RK4_step rhs w 0)) /\
  same_number (w3 w) (w3 (RK4_step rhs w 0)).
Proof.
  unfold all_finite. rewrite !andb_true_iff. intros [[[H0 H1] H2] H3].
  rewrite RK4_step_slopes. change (0 / 6) with 0.
  unfold same_number. simpl.
  repeat split; apply F64.add_zero, F64.mul_zero_finite;
    solve [reflexivity | assumption].
Qed.

(** C7 at the program's right-hand side and the launch state of 45 degrees. *)
Lemma RK4_step_zero_h_witness :
  all_finite (RK4_slopes (f ref_libm) (shoot ref_libm 45 v_0) 0) = true /\
  same_number 0 (w0 (RK4_step (f ref_libm) (shoot ref_libm 45 v_0) 0)) /\
  same_number 0 (w1 (RK4_step (f ref_libm) (shoot ref_libm 45 v_0) 0)) /\
  same_number (w2 (shoot ref_libm 45 v_0))
              (w2 (RK4_step (f ref_libm) (shoot ref_libm 45 v_0) 0)) /\
  same_number (w3 (shoot ref_libm 45 v_0))
              (w3 (RK4_step (f ref_libm) (shoot ref_libm 45 v_0) 0)).
Proof.
  split; [vm_compute; reflexivity|].
  apply (RK4_step_zero_h (f ref_libm) (shoot ref_libm 45 v_0)).
  vm_compute; reflexivity.
Defined.

(** C7 as stated fails: with a right-hand side whose value is infinite, the
    step of length 0 turns the zero state into not-a-number; so does the
    program's right-hand side at an infinite horizontal velocity. *)
Lemma RK4_step_zero_h_changes_state :
  RK4_step (fun _ => Vec infinity infinity infinity infinity) zeros4 0
  = Vec nan nan nan nan /\
  w0 (RK4_step (f ref_libm) (Vec 0 0 infinity 0) 0) = nan.
Proof. split; vm_compute; reflexivity. Qed.

(** * The landing point *)

Lemma neg_index_short (l : list float) (k : nat) :
  (length l < k)%nat -> neg_index l k = Raised IndexError.
Proof.
  intros H. unfold neg_index.
  destruct (Nat.leb_spec k (length l)); [lia | reflexivity].
Qed.

Lemma neg_index_cases (l : list float) (k : nat) :
  (exists x, neg_index l k = Returned x) \/ neg_index l k = Raised IndexError.
Proof.
  unfold neg_index. destruct (k <=? length l)%nat; [|auto].
  destruct (nth_error l (length l - k)); eauto.
Qed.

Lemma neg_index_last (l : list float) (x : float) :
  neg_index (l ++ [x]) 1 = Returned x.
Proof.
  unfold neg_index. rewrite length_app. cbn [length].
  destruct (Nat.leb_spec 1 (length l + 1)); [|lia].
  replace (length l + 1 - 1)%nat with (length l) by lia.
  rewrite nth_error_app2 by lia. rewrite Nat.sub_diag. reflexivity.
Qed.

Lemma neg_index_last_but_one (l : list float) (x y : float) :
  neg_index (l ++ [x; y]) 2 = Returned x.
Proof.
  unfold neg_index. rewrite length_app. cbn [length].
  destruct (Nat.leb_spec 2 (length l + 2)); [|lia].
  replace (length l + 2 - 2)%nat with (length l) by lia.
  rewrite nth_error_app2 by lia. rewrite Nat.sub_diag. reflexivity.
Qed.

Lemma landing_point_two (X Y : list float) (x2 x1 y2 y1 : float) :
  landing_point (X ++ [x2; x1]) (Y ++ [y2; y1])
  = Returned ((- y1) / ((y1 - y2) / (x1 - x2)) + x1).
Proof.
  unfold landing_point.
  change (X ++ [x2; x1]) with (X ++ [x2] ++ [x1]).
  change (Y ++ [y2; y1]) with (Y ++ [y2] ++ [y1]).
  rewrite !app_assoc, !neg_index_last. simpl.
  rewrite <- !app_assoc. simpl. rewrite !neg_index_last_but_one.
  reflexivity.
Qed.

(** C5: on a trajectory of fewer than two samples the landing point is not
    computed: the access to a missing sample raises [IndexError]. *)
Theorem landing_point_short (x_list y_list : list float) :
  (length x_list < 2)%nat \/ (length y_list < 2)%nat ->
  landing_point x_list y_list = Raised IndexError.
Proof.
  intros H. unfold landing_point.
  destruct (neg_index_cases y_list 1) as [[y1 ->]| ->]; [simpl|reflexivity].
  destruct (neg_index_cases y_list 2) as [[y2 E]|E]; rewrite E;
    [simpl|reflexivity].
  destruct (neg_index_cases x_list 1) as [[x1 ->]| ->]; [simpl|reflexivity].
  destruct (neg_index_cases x_list 2) as [[x2 E']|E']; rewrite E';
    [simpl|reflexivity].
  destruct H as [H|H];
    [rewrite (neg_index_short x_list 2 H) in E'
    |rewrite (neg_index_short y_list 2 H) in E]; discriminate.
Qed.

(** C5 on the single sample (0.5, -1). *)
Lemma landing_point_short_witness :
  landing_point [0.5] [-1] = Raised IndexError.
Proof.
  apply (landing_point_short [0.5] [-1]). left. simpl. lia.
Defined.

(** C4, as the code has it: when the last two samples have equal
    x-positions no error is raised; the slope is the quotient by a zero (or
    not-a-number) difference, hence infinite or not-a-number, and the landing
    point is computed from it. *)
Theorem landing_point_vertical (X Y : list float) (x2 x1 y2 y1 : float) :
  (x1 =? x2) = true ->
  landing_point (X ++ [x2; x1]) (Y ++ [y2; y1])
  = Returned ((- y1) / ((y1 - y2) / (x1 - x2)) + x1) /\
  is_finite ((y1 - y2) / (x1 - x2)) = false.
Proof.
  intros H. split.
  - apply landing_point_two.
  - apply F64.div_by_zero_or_nan, F64.sub_of_equal, H.
Qed.

(** C4 on the samples (1, 1), (1, -1): the slope is infinite and the landing
    point is 1. *)
Lemma landing_point_vertical_witness :
  landing_point [1; 1] [1; -1] = Returned ((- -1) / ((-1 - 1) / (1 - 1)) + 1) /\
  is_finite ((-1 - 1) / (1 - 1)) = false.
Proof.
  apply (landing_point_vertical [] [] 1 1 1 (-1)). reflexivity.
Defined.

(** C4 as stated fails: on the samples (1, 1), (1, -1) the landing point is
    returned, with an infinite slope, and no error is raised. *)
Lemma landing_point_vertical_no_error :
  landing_point [1; 1] [1; -1] = Returned 1 /\
  (-1 - 1) / (1 - 1) = neg_infinity.
Proof. split; reflexivity. Qed.

(** * The trajectory *)

Section Trajectory.

Variable M : libm.

Lemma flight_O (h : float) (w : vec) (X Y : list float) :
  flight M 0 h w X Y = if 0 <=? w1 w then OutOfFuel else Returned (X, Y).
Proof. reflexivity. Qed.

Lemma flight_S (fuel : nat) (h : float) (w : vec) (X Y : list float) :
  flight M (S fuel) h w X Y =
  if 0 <=? w1 w
  then flight M fuel h (RK4_step (f M) w h)
         (X ++ [w0 (RK4_step (f M) w h)]) (Y ++ [w1 (RK4_step (f M) w h)])
  else Returned (X, Y).
Proof. reflexivity. Qed.

Lemma state_after_S (n : nat) (h : float) (w : vec) :
  state_after M (S n) h w = state_after M n h (RK4_step (f M) w h).
Proof. reflexivity. Qed.

(** What a returning loop has done: [n] steps, one sample appended per step,
    every state before the last one in the air, the last one not. *)
Lemma flight_returned (fuel : nat) :
  forall (h : float) (w : vec) (X Y X' Y' : list float),
  flight M fuel h w X Y = Returned (X', Y') ->
  exists n : nat,
    X' = X ++ map (fun i => w0 (state_after M (S i) h w)) (seq 0 n) /\
    Y' = Y ++ map (fun i => w1 (state_after M (S i) h w)) (seq 0 n) /\
    (forall i, (i < n)%nat -> (0 <=? w1 (state_after M i h w)) = true) /\
    (0 <=? w1 (state_after M n h w)) = false.
Proof.
  induction fuel as [|fuel IH]; intros h w X Y X' Y' H;
    [rewrite flight_O in H | rewrite flight_S in H];
    destruct (0 <=? w1 w) eqn:E; try discriminate.
  - injection H as <- <-. exists O. cbn [seq map state_after].
    rewrite !app_nil_r.
    repeat split; [intros i Hi; lia | assumption].
  - apply IH in H. destruct H as (n & HX & HY & Hair & Hend).
    exists (S n). cbn [seq map]. rewrite <- !seq_shift, !map_map.
    rewrite <- !app_assoc in HX, HY. cbn [app] in HX, HY.
    repeat split; try assumption.
    intros [|i] Hi; [assumption | rewrite state_after_S; apply Hair; lia].
  - injection H as <- <-. exists O. cbn [seq map state_after].
    rewrite !app_nil_r.
    repeat split; [intros i Hi; lia | assumption].
Qed.

Lemma flight_never_raises (fuel : nat) :
  forall (h : float) (w : vec) (X Y : list float) (e : exn),
  flight M fuel h w X Y <> Raised e.
Proof.
  induction fuel as [|fuel IH]; intros h w X Y e;
    [rewrite flight_O | rewrite flight_S];
    destruct (0 <=? w1 w); try discriminate. apply IH.
Qed.

(** A state in the air that the step of length [h] leaves unchanged keeps
    the loop running. *)
Lemma flight_fixed_point (h : float) (w : vec) :
  RK4_step (f M) w h = w -> (0 <=? w1 w) = true ->
  forall (fuel : nat) (X Y : list float), flight M fuel h w X Y = OutOfFuel.
Proof.
  intros Hfix Hair. induction fuel as [|fuel IH]; intros X Y;
    [rewrite flight_O | rewrite flight_S];
    rewrite Hair; [reflexivity|]. rewrite Hfix. apply IH.
Qed.

(** C9, as the code has it: a returning call gives two arrays of one and the
    same length, at least 1; sample [i] is the state after [i + 1] steps from
    the launch state (the launch state itself is not a sample); every y
    sample but the last is at least 0, and the last one fails [y >= 0]: it is
    negative or not-a-number. *)
Theorem projectile_motion_samples (fuel : nat) (h theta : float)
    (X Y : list float) :
  projectile_motion M fuel h theta = Returned (X, Y) ->
  length X = length Y /\
  (1 <= length Y)%nat /\
  (forall i, (i < length Y)%nat ->
     nth i X 0 = w0 (state_after M (S i) h (shoot M theta v_0)) /\
     nth i Y 0 = w1 (state_after M (S i) h (shoot M theta v_0))) /\
  (forall i, (S i < length Y)%nat -> (0 <=? nth i Y 0) = true) /\
  ((last Y 0 <? 0) = true \/ is_nan (last Y 0) = true).
Proof.
  intros H. unfold projectile_motion in H.
  destruct (flight_returned _ _ _ _ _ _ _ H) as (n & HX & HY & Hair & Hend).
  cbn [app] in HX, HY.
  assert (Hn : (1 <= n)%nat).
  { destruct n; [|lia]. cbn [state_after shoot w1] in Hend.
    change (0 <=? 0) with true in Hend. discriminate. }
  assert (LX : length X = n) by (rewrite HX, length_map, length_seq; reflexivity).
  assert (LY : length Y = n) by (rewrite HY, length_map, length_seq; reflexivity).
  assert (Hnth : forall i, (i < n)%nat ->
     nth i X 0 = w0 (state_after M (S i) h (shoot M theta v_0)) /\
     nth i Y 0 = w1 (state_after M (S i) h (shoot M theta v_0))).
  { intros i Hi. rewrite HX, HY. split.
    - rewrite (nth_indep _ 0 (w0 (state_after M (S 0) h (shoot M theta v_0))))
        by (rewrite length_map, length_seq; assumption).
      rewrite (map_nth (fun i => w0 (state_after M (S i) h (shoot M theta v_0)))).
      rewrite seq_nth by assumption. reflexivity.
    - rewrite (nth_indep _ 0 (w1 (state_after M (S 0) h (shoot M theta v_0))))
        by (rewrite length_map, length_seq; assumption).
      rewrite (map_nth (fun i => w1 (state_after M (S i) h (shoot M theta v_0)))).
      rewrite seq_nth by assumption. reflexivity. }
  rewrite LX, LY. repeat split; try (apply Hnth; assumption); try assumption.
  - intros i Hi. destruct (Hnth i ltac:(lia)) as [_ ->]. apply (Hair (S i)). lia.
  - assert (HL : last Y 0 = w1 (state_after M n h (shoot M theta v_0))).
    { destruct n as [|n]; [lia|].
      rewrite HY, seq_S, map_app. simpl. apply last_last. }
    rewrite HL. apply F64.leb_false_cases in Hend.
    destruct Hend as [Hlt|[Hn0|Hnan]]; auto. discriminate.
Qed.

Lemma flight_acc_eq (fuel : nat) :
  forall (h : float) (w : vec) (X Y : list float),
  flight M fuel h w X Y = flight_acc M fuel h w (rev X) (rev Y).
Proof.
  induction fuel as [|fuel IH]; intros h w X Y.
  - rewrite flight_O. cbn [flight_acc].
    rewrite <- !rev_alt, !rev_involutive. reflexivity.
  - rewrite flight_S. cbn [flight_acc].
    rewrite <- !rev_alt, !rev_involutive, IH, !rev_unit. reflexivity.
Qed.

Lemma range_at_acc_eq (fuel : nat) (h th : float) :
  range_at M fuel h th = range_at_acc M fuel h th.
Proof.
  unfold range_at, range_at_acc, projectile_motion.
  rewrite flight_acc_eq. reflexivity.
Qed.

(** More fuel does not change the result of a loop that returns. *)
Lemma flight_more_fuel (fuel : nat) :
  forall (k : nat) (h : float) (w : vec) (X Y : list float)
         (r : list float * list float),
  flight M fuel h w X Y = Returned r ->
  flight M (fuel + k) h w X Y = Returned r.
Proof.
  induction fuel as [|fuel IH]; intros k h w X Y r H.
  - rewrite flight_O in H. destruct (0 <=? w1 w) eqn:E; [discriminate|].
    destruct k; cbn [Nat.add]; [rewrite flight_O | rewrite flight_S];
      rewrite E; assumption.
  - rewrite flight_S in H. cbn [Nat.add]. rewrite flight_S.
    destruct (0 <=? w1 w); [apply IH|]; assumption.
Qed.

(** C3, as the code has it: with the step length 0 no error is raised; when
    the step of length 0 gives back the launch state, as it does for a launch
    at 45 degrees, the loop never ends: it is still running after any
    number of iterations. *)
Theorem projectile_motion_zero_h (theta : float) :
  RK4_step (f M) (shoot M theta v_0) 0 = shoot M theta v_0 ->
  forall fuel : nat, projectile_motion M fuel 0 theta = OutOfFuel.
Proof.
  intros Hfix fuel. unfold projectile_motion.
  apply flight_fixed_point; [assumption | reflexivity].
Qed.

Lemma projectile_motion_never_raises (fuel : nat) (h theta : float) (e : exn) :
  projectile_motion M fuel h theta <> Raised e.
Proof. unfold projectile_motion. apply flight_never_raises. Qed.

End Trajectory.

Lemma range_at_more_fuel (M : libm) (fuel k : nat) (h th r : float) :
  range_at M fuel h th = Returned r ->
  range_at M (fuel + k) h th = Returned r.
Proof.
  unfold range_at, projectile_motion. intros H.
  destruct (flight M fuel h (shoot M th v_0) [] []) as [xy| |] eqn:E;
    try discriminate.
  rewrite (flight_more_fuel M fuel k _ _ _ _ xy E). assumption.
Qed.

(** C9 on the launch at 1 degree with the step length 1. *)
Lemma projectile_motion_samples_witness :
  exists X Y : list float,
    projectile_motion ref_libm 100 1 1 = Returned (X, Y) /\
    length X = length Y /\
    (1 <= length Y)%nat /\
    (forall i, (i < length Y)%nat ->
       nth i X 0 = w0 (state_after ref_libm (S i) 1 (shoot ref_libm 1 v_0)) /\
       nth i Y 0 = w1 (state_after ref_libm (S i) 1 (shoot ref_libm 1 v_0))) /\
    (forall i, (S i < length Y)%nat -> (0 <=? nth i Y 0) = true) /\
    ((last Y 0 <? 0) = true \/ is_nan (last Y 0) = true).
Proof.
  eexists. eexists. split.
  - vm_compute. reflexivity.
  - apply (projectile_motion_samples ref_libm 100 1 1).
    vm_compute. reflexivity.
Defined.

(** C9 as stated fails: at the step length 0.1 the trajectory of the launch
    at 45 degrees returns with a last y sample that is not-a-number, hence
    not negative; the sample before it is above the ground. *)
Lemma projectile_motion_ends_in_nan :
  exists X Y : list float,
    projectile_motion ref_libm 3000 0.1 45 = Returned (X, Y) /\
    length Y = 2293%nat /\
    last Y 0 = nan /\
    (last Y 0 <? 0) = false /\
    (0 <? last (removelast Y) 0) = true.
Proof.
  eexists. eexists. split; [vm_compute; reflexivity|].
  repeat split; vm_compute; reflexivity.
Qed.

(** C3 on the launch at 45 degrees. *)
Lemma projectile_motion_zero_h_witness :
  RK4_step (f ref_libm) (shoot ref_libm 45 v_0) 0 = shoot ref_libm 45 v_0 /\
  projectile_motion ref_libm 1000 0 45 = OutOfFuel.
Proof.
  split; [vm_compute; reflexivity|].
  apply (projectile_motion_zero_h ref_libm 45); vm_compute; reflexivity.
Defined.

(** C3 as stated fails: with the step length 0 the launch at 45 degrees
    raises nothing and is still in the loop after any number of iterations. *)
Lemma projectile_motion_zero_h_loops :
  projectile_motion ref_libm 1000 0 45 = OutOfFuel /\
  (forall fuel : nat, projectile_motion ref_libm fuel 0 45 = OutOfFuel) /\
  (forall (fuel : nat) (e : exn),
     projectile_motion ref_libm fuel 0 45 <> Raised e).
Proof.
  assert (H : forall fuel, projectile_motion ref_libm fuel 0 45 = OutOfFuel).
  { intros fuel. unfold projectile_motion.
    apply flight_fixed_point; vm_compute; reflexivity. }
  split; [apply H | split; [apply H |]].
  intros fuel e. rewrite H. discriminate.
Qed.

(** * The search for the optimal angle *)

Lemma coarse_angles_eq :
  coarse_angles =
  [1; 3; 5; 7; 9; 11; 13; 15; 17; 19; 21; 23; 25; 27; 29; 31; 33; 35; 37; 39;
   41; 43; 45; 47; 49; 51; 53; 55; 57; 59; 61; 63; 65; 67; 69; 71; 73; 75; 77;
   79; 81; 83; 85; 87; 89].
Proof. reflexivity. Qed.

Lemma last_cons_default {A : Type} (l : list A) :
  forall x d : A, last (x :: l) d = last l x.
Proof.
  induction l as [|y l IH]; intros x d; [reflexivity|].
  change (last (x :: y :: l) d) with (last (y :: l) d).
  rewrite !IH. reflexivity.
Qed.

(** ** The record of a list of (angle, range) pairs *)

(** With [>=], the record is at least every range, and no range after the
    one that set it reaches it. *)
Lemma track_best (l : list (float * float)) :
  forall r0 o0 rec opt,
  is_nan r0 = false ->
  fold_left track l (r0, o0) = (rec, opt) ->
  (r0 <=? rec) = true /\
  (forall p, In p l -> (rec <? snd p) = false) /\
  ((rec = r0 /\ opt = o0 /\ forall p, In p l -> (r0 <=? snd p) = false) \/
   (exists l1 l2, l = l1 ++ (opt, rec) :: l2 /\
                  forall p, In p l2 -> (rec <=? snd p) = false)).
Proof.
  induction l as [|[th r] l IH]; intros r0 o0 rec opt Hn H.
  - injection H as <- <-. split; [apply F64.leb_refl, Hn|].
    split; [intros p []|]. left. repeat split. intros p [].
  - cbn [fold_left] in H. unfold track at 2 in H. cbn [fst snd] in H.
    destruct (r0 <=? r) eqn:E.
    + destruct (F64.leb_not_nan _ _ E) as [_ Hr].
      destruct (IH _ _ _ _ Hr H) as (Hle & Hall & Hlast).
      split; [apply (F64.leb_trans _ _ _ E Hle)|]. split.
      * intros p [<-|Hp]; [apply F64.leb_ltb_false, Hle | apply Hall, Hp].
      * right. destruct Hlast as [(-> & -> & Hl)|(l1 & l2 & -> & Hl)].
        -- exists [], l. split; [reflexivity | assumption].
        -- exists ((th, r) :: l1), l2. split; [reflexivity | assumption].
    + destruct (IH _ _ _ _ Hn H) as (Hle & Hall & Hlast).
      split; [assumption|]. split.
      * intros p [<-|Hp]; [|apply Hall, Hp]. cbn [snd].
        destruct (rec <? r) eqn:L; [|reflexivity].
        pose proof (F64.ltb_leb _ _ (F64.leb_ltb_trans _ _ _ Hle L)).
        congruence.
      * destruct Hlast as [(-> & -> & Hl)|(l1 & l2 & -> & Hl)].
        -- left. repeat split. intros p [<-|Hp]; [assumption | apply Hl, Hp].
        -- right. exists ((th, r) :: l1), l2.
           split; [reflexivity | assumption].
Qed.

Section Sweep.

Variable M : libm.
Variables (fuel : nat) (h : float).

Lemma coarse_body_eq (st : sweep) (th : float) :
  coarse_body M fuel h st th =
  x_range <- range_at M fuel h th ;;
  Returned (Sweep (fst (track (record st, optimal_angle st) (th, x_range)))
                  (snd (track (record st, optimal_angle st) (th, x_range)))
                  (theta_list st ++ [th]) (range_list st ++ [x_range]) th).
Proof.
  unfold coarse_body, range_at.
  destruct (projectile_motion M fuel h th) as [[x_list y_list]| |];
    cbn [bind]; try reflexivity.
  destruct (landing_point x_list y_list) as [x_range| |];
    cbn [bind]; try reflexivity.
  unfold track. cbn [fst snd]. destruct (record st <=? x_range); reflexivity.
Qed.

Lemma refine_body_eq (st : sweep) (theta_small : float) :
  refine_body M fuel h st theta_small =
  x_range <- range_at M fuel h (theta st) ;;
  Returned (if record st <=? x_range
            then Sweep x_range theta_small (theta_list st) (range_list st)
                       (theta st)
            else st).
Proof.
  unfold refine_body, range_at.
  destruct (projectile_motion M fuel h (theta st)) as [[x_list y_list]| |];
    cbn [bind]; try reflexivity.
  destruct (landing_point x_list y_list) as [x_range| |];
    cbn [bind]; try reflexivity.
  destruct (record st <=? x_range); reflexivity.
Qed.

(** What a returning first loop over the angles [l] has done: [ps] are the
    (angle, range) pairs, in the order of the loop. *)
Lemma coarse_loop (l : list float) :
  forall st st' : sweep,
  for_each (coarse_body M fuel h) l st = Returned st' ->
  exists ps : list (float * float),
    map fst ps = l /\
    Forall (fun p => range_at M fuel h (fst p) = Returned (snd p)) ps /\
    theta_list st' = theta_list st ++ map fst ps /\
    range_list st' = range_list st ++ map snd ps /\
    (record st', optimal_angle st')
      = fold_left track ps (record st, optimal_angle st) /\
    theta st' = last l (theta st).
Proof.
  induction l as [|th l IH]; intros st st' H.
  - injection H as <-. exists []. cbn. rewrite !app_nil_r.
    repeat split; auto.
  - cbn [for_each] in H. rewrite coarse_body_eq in H.
    destruct (range_at M fuel h th) as [r| |] eqn:E; cbn [bind] in H;
      try discriminate.
    apply IH in H. destruct H as (ps & Hfst & Hall & Hth & Hr & Hbest & Hlast).
    cbn [theta_list range_list record optimal_angle theta] in *.
    exists ((th, r) :: ps). cbn [map fst snd fold_left].
    rewrite <- app_assoc in Hth, Hr.
    repeat split; try assumption.
    + rewrite Hfst. reflexivity.
    + constructor; assumption.
    + rewrite Hbest. destruct (track (record st, optimal_angle st) (th, r)).
      reflexivity.
    + rewrite Hlast. symmetry. apply last_cons_default.
Qed.

Lemma for_each_ext {A S : Type} (body body' : S -> A -> outcome S) :
  (forall st x, body st x = body' st x) ->
  forall l st, for_each body l st = for_each body' l st.
Proof.
  intros E l. induction l as [|x l IH]; intros st; [reflexivity|].
  cbn [for_each]. rewrite E. destruct (body' st x); cbn [bind]; auto.
Qed.

Lemma coarse_pass_acc_eq : coarse_pass M fuel h = coarse_pass_acc M fuel h.
Proof.
  apply for_each_ext. intros st th.
  rewrite coarse_body_eq, range_at_acc_eq. reflexivity.
Qed.

(** ** The second loop *)

(** The second loop computes one and the same range for every candidate,
    that of the angle [theta st]: a range at least the record makes the last
    candidate the optimal angle, any other range changes nothing. *)
Lemma refine_loop (l : list float) :
  forall (st : sweep) (c r : float),
  range_at M fuel h (theta st) = Returned r ->
  for_each (refine_body M fuel h) (l ++ [c]) st
  = Returned (if record st <=? r
              then Sweep r c (theta_list st) (range_list st) (theta st)
              else st).
Proof.
  induction l as [|x l IH]; intros st c r Hr.
  - cbn [app for_each]. rewrite refine_body_eq, Hr. cbn [bind].
    destruct (record st <=? r); reflexivity.
  - cbn [app for_each]. rewrite refine_body_eq, Hr. cbn [bind].
    destruct (record st <=? r) eqn:E.
    + rewrite (IH _ c r) by exact Hr.
      cbn [record theta_list range_list theta].
      destruct (F64.leb_not_nan _ _ E) as [_ Hn].
      rewrite (F64.leb_refl _ Hn). reflexivity.
    + rewrite (IH _ c r Hr), E. reflexivity.
Qed.

Lemma refine_angles_last (st : sweep) :
  exists l, refine_angles st = l ++ [optimal_angle st + 2] /\ length l = 40%nat.
Proof.
  unfold refine_angles, linspace. eexists. split; [reflexivity|].
  rewrite length_map, length_seq. reflexivity.
Qed.

Lemma coarse_pass_theta (st : sweep) :
  coarse_pass M fuel h = Returned st -> theta st = 89.
Proof.
  intros H. unfold coarse_pass in H. apply coarse_loop in H.
  destruct H as (ps & _ & _ & _ & _ & _ & ->). reflexivity.
Qed.

(** C1, what the code does: in the second loop the trajectory and the range
    are those of the launch at 89 degrees, the last angle of the first loop,
    for each of the 41 candidates; the range of a candidate is never computed.
    The angle returned is the optimal angle of the first loop when the range
    at 89 degrees is below the record (or not-a-number), and that angle plus
    2, the last candidate, otherwise. *)
Theorem find_optimal_angle_refine (st : sweep) (r : float) :
  coarse_pass M fuel h = Returned st ->
  range_at M fuel h 89 = Returned r ->
  find_optimal_angle M fuel h
  = Returned (theta_list st, range_list st,
              if record st <=? r then optimal_angle st + 2
              else optimal_angle st).
Proof.
  intros Hc Hr. unfold find_optimal_angle, refine_pass.
  rewrite Hc. cbn [bind].
  destruct (refine_angles_last st) as (l & -> & _).
  rewrite <- (coarse_pass_theta st Hc) in Hr.
  rewrite (refine_loop l st _ r Hr). cbn [bind].
  destruct (record st <=? r); reflexivity.
Qed.

End Sweep.

(** The run of the program, with the step length 0.1: the first loop ends
    with the record 257295.02... at 43 degrees; every range from 45 degrees on
    is not-a-number. *)
Lemma coarse_pass_tenth :
  exists st : sweep,
    coarse_pass ref_libm 3000 0.1 = Returned st /\
    record st = 257295.02105656257 /\
    optimal_angle st = 43 /\
    theta st = 89 /\
    skipn 22 (range_list st) = repeat nan 23.
Proof.
  eexists. split.
  - rewrite coarse_pass_acc_eq. vm_compute. reflexivity.
  - repeat split.
Qed.

(** C1 on the run of the program, with the step length 0.1: the range at 89
    degrees is not-a-number, and the angle returned is the 43 degrees of the
    first loop. *)
Lemma find_optimal_angle_refine_witness :
  exists st : sweep,
    coarse_pass ref_libm 3000 0.1 = Returned st /\
    range_at ref_libm 3000 0.1 89 = Returned nan /\
    find_optimal_angle ref_libm 3000 0.1
    = Returned (theta_list st, range_list st, 43).
Proof.
  eexists. split; [|split].
  - rewrite coarse_pass_acc_eq. vm_compute. reflexivity.
  - rewrite range_at_acc_eq. vm_compute. reflexivity.
  - etransitivity.
    + eapply (find_optimal_angle_refine ref_libm 3000 0.1 _ nan).
      * rewrite coarse_pass_acc_eq. vm_compute. reflexivity.
      * rewrite range_at_acc_eq. vm_compute. reflexivity.
    + reflexivity.
Defined.

(** In that run the candidate 44 of the second loop has a range above the
    record of the first loop; the second loop never computes it. *)
Lemma refine_candidate_above_record :
  nth 30 (linspace (43 - 2) (43 + 2) 41) 0 = 44 /\
  range_at ref_libm 3000 0.1 44 = Returned 258052.95546357887 /\
  (257295.02105656257 <=? 258052.95546357887) = true.
Proof.
  split; [reflexivity|]. split; [|reflexivity].
  rewrite range_at_acc_eq. vm_compute. reflexivity.
Qed.

(** With the step length 1000 the first trajectory has a single sample, and
    the [IndexError] of the interpolation ends the search. *)
Lemma find_optimal_angle_single_sample :
  (exists x y : float,
     projectile_motion ref_libm 10 1000 1 = Returned ([x], [y])) /\
  find_optimal_angle ref_libm 10 1000 = Raised IndexError.
Proof.
  split; [eexists; eexists|]; vm_compute; reflexivity.
Qed.

(** * More on the landing point *)

Lemma neg_index_nth (l : list float) (k : nat) :
  (1 <= k <= length l)%nat ->
  neg_index l k = Returned (nth (length l - k) l 0).
Proof.
  intros H. unfold neg_index.
  destruct (Nat.leb_spec k (length l)); [|lia].
  rewrite (nth_error_nth' l 0) by lia. reflexivity.
Qed.

(** X1: with two samples or more in both arrays the landing point is computed
    and nothing is raised: it is the interpolation on the last two samples. *)
Theorem landing_point_long (x_list y_list : list float) :
  (2 <= length x_list)%nat -> (2 <= length y_list)%nat ->
  landing_point x_list y_list
  = Returned
      (let x1 := nth (length x_list - 1) x_list 0 in
       let x2 := nth (length x_list - 2) x_list 0 in
       let y1 := nth (length y_list - 1) y_list 0 in
       let y2 := nth (length y_list - 2) y_list 0 in
       (- y1) / ((y1 - y2) / (x1 - x2)) + x1).
Proof.
  intros Hx Hy. unfold landing_point.
  rewrite !(neg_index_nth y_list) by lia.
  rewrite !(neg_index_nth x_list) by lia. reflexivity.
Qed.

Lemma landing_point_long_witness :
  landing_point [0; 3; 5] [0; 2; -2] = Returned 4.
Proof.
  apply (landing_point_long [0; 3; 5] [0; 2; -2]); simpl; lia.
Defined.

(** X2: a last y sample that is not-a-number makes the landing point
    not-a-number, whatever the other samples. *)
Theorem landing_point_nan (X Y : list float) (x2 x1 y2 : float) :
  landing_point (X ++ [x2; x1]) (Y ++ [y2; nan]) = Returned nan.
Proof.
  rewrite landing_point_two.
  rewrite F64.sub_nan_l, ?F64.div_nan_l, ?F64.div_nan_r, F64.add_nan_l.
  reflexivity.
Qed.

(** X3: on a vertical last segment (equal finite x-positions, distinct finite
    y-positions with a finite difference) the slope is infinite and the
    landing point is the last x-position. *)
Theorem landing_point_vertical_range (X Y : list float) (x2 x1 y2 y1 : float) :
  (x1 =? x2) = true -> is_finite x1 = true ->
  is_finite y1 = true -> is_finite (y1 - y2) = true ->
  (y1 - y2 =? 0) = false ->
  exists v : float,
    landing_point (X ++ [x2; x1]) (Y ++ [y2; y1]) = Returned v /\
    same_number x1 v.
Proof.
  intros Ex Hx Hy Hd Hd0. eexists. split; [apply landing_point_two|].
  apply F64.zero_add, F64.div_finite_by_infinity; [assumption|].
  apply F64.div_finite_by_zero; try assumption.
  apply F64.sub_of_equal_finite; assumption.
Qed.

Lemma landing_point_vertical_range_witness :
  exists v : float,
    landing_point [7; 7] [3; -1] = Returned v /\ same_number 7 v.
Proof.
  apply (landing_point_vertical_range [] [] 7 7 3 (-1)); reflexivity.
Defined.

(** * Not-a-number in the flight *)

Section NaN.

Variable M : libm.

Lemma f_bad_radicand (w : vec) :
  (radicand w <? 0) = true -> (0 <? density_factor w) = true ->
  f M w = Vec (w2 w) (w3 w) nan nan.
Proof.
  intros Hs Hk. unfold f. fold (density_factor w). rewrite Hk. cbv zeta.
  fold (radicand w). rewrite (F64.sqrt_negative _ Hs).
  rewrite !F64.mul_nan_r, F64.sub_nan_l. reflexivity.
Qed.

Lemma f_nan_velocity (u : vec) :
  w2 u = nan -> w3 u = nan -> w0 (f M u) = nan /\ w1 (f M u) = nan.
Proof.
  intros E2 E3. unfold f. destruct (0 <? 1 - a * w1 u / T_0); cbn [w0 w1]; auto.
Qed.

(** X6: a component of the state that is not-a-number stays so after a step,
    whatever the right-hand side and the step length. *)
Theorem RK4_step_keeps_nan (rhs : vec -> vec) (w : vec) (h : float) :
  (w0 w = nan -> w0 (RK4_step rhs w h) = nan) /\
  (w1 w = nan -> w1 (RK4_step rhs w h) = nan) /\
  (w2 w = nan -> w2 (RK4_step rhs w h) = nan) /\
  (w3 w = nan -> w3 (RK4_step rhs w h) = nan).
Proof.
  rewrite RK4_step_slopes. unfold vadd. cbn [w0 w1 w2 w3].
  repeat split; intros ->; apply F64.add_nan_l.
Qed.

(** X5: in the air of the model ([k > 0]), a state whose radicand is negative
    (the two velocities sum to less than zero) is sent to the state of four
    not-a-numbers by one step, whatever the step length. *)
Theorem RK4_step_bad_radicand (w : vec) (h : float) :
  (radicand w <? 0) = true -> (0 <? density_factor w) = true ->
  RK4_step (f M) w h = nan4.
Proof.
  intros Hs Hk. rewrite RK4_step_slopes.
  assert (E : RK4_slopes (f M) w h = nan4).
  { unfold RK4_slopes. rewrite (f_bad_radicand w Hs Hk). cbv zeta.
    set (u2 := vadd w (smul (h / 2) (Vec (w2 w) (w3 w) nan nan))).
    destruct (f_nan_velocity u2) as [E0 E1];
      [unfold u2; cbn [vadd smul w2 w3];
       rewrite F64.mul_nan_r; apply F64.add_nan_r ..|].
    set (s2 := f M u2) in *. set (s3 := f M (vadd w (smul (h / 2) s2))).
    set (s4 := f M (vadd w (smul h s3))).
    unfold vadd, smul, nan4. cbn [w0 w1 w2 w3].
    rewrite E0, E1, !F64.mul_nan_r, !F64.add_nan_r, !F64.add_nan_l.
    reflexivity. }
  rewrite E. unfold vadd, smul, nan4. cbn [w0 w1 w2 w3].
  rewrite !F64.mul_nan_r, !F64.add_nan_r. reflexivity.
Qed.

End NaN.

Lemma f_nan_accelerations_witness :
  (radicand (Vec 0 100 3 (-4)) <? 0) = true /\
  (0 <? density_factor (Vec 0 100 3 (-4))) = true /\
  w2 (f ref_libm (Vec 0 100 3 (-4))) = nan /\
  w3 (f ref_libm (Vec 0 100 3 (-4))) = nan.
Proof.
  split; [reflexivity|]. split; [reflexivity|].
  apply (f_nan_accelerations ref_libm (Vec 0 100 3 (-4))); reflexivity.
Defined.

Lemma RK4_step_bad_radicand_witness :
  (radicand (Vec 0 100 3 (-4)) <? 0) = true /\
  (0 <? density_factor (Vec 0 100 3 (-4))) = true /\
  RK4_step (f ref_libm) (Vec 0 100 3 (-4)) 0.1 = nan4.
Proof.
  split; [reflexivity|]. split; [reflexivity|].
  apply (RK4_step_bad_radicand ref_libm (Vec 0 100 3 (-4)) 0.1); reflexivity.
Defined.

Section NaNVelocity.

Variable M : libm.

(** X7: a velocity that is not-a-number makes the position not-a-number at the
    next step, component by component. *)
Theorem RK4_step_nan_velocity (w : vec) (h : float) :
  (w2 w = nan -> w0 (RK4_step (f M) w h) = nan) /\
  (w3 w = nan -> w1 (RK4_step (f M) w h) = nan).
Proof.
  rewrite RK4_step_slopes. unfold RK4_slopes. cbv zeta.
  assert (E : forall u, w0 (f M u) = w2 u /\ w1 (f M u) = w3 u).
  { intros u. unfold f. destruct (0 <? 1 - a * w1 u / T_0); auto. }
  set (s2 := f M (vadd w (smul (h / 2) (f M w)))).
  set (s3 := f M (vadd w (smul (h / 2) s2))).
  set (s4 := f M (vadd w (smul h s3))).
  unfold vadd, smul. cbn [w0 w1 w2 w3].
  destruct (E w) as [-> ->].
  split; intros ->;
    rewrite !F64.add_nan_l, F64.mul_nan_r; apply F64.add_nan_r.
Qed.

(** ** Enough fuel *)

Lemma flight_not_airborne (fuel : nat) (h : float) (w : vec) (X Y : list float) :
  (0 <=? w1 w) = false -> flight M fuel h w X Y = Returned (X, Y).
Proof.
  intros H. destruct fuel; [rewrite flight_O | rewrite flight_S];
    rewrite H; reflexivity.
Qed.

Lemma flight_steps (n : nat) :
  forall (fuel : nat) (h : float) (w : vec) (X Y : list float),
  (forall i, (i < n)%nat -> (0 <=? w1 (state_after M i h w)) = true) ->
  flight M (n + fuel) h w X Y
  = flight M fuel h (state_after M n h w)
      (X ++ map (fun i => w0 (state_after M (S i) h w)) (seq 0 n))
      (Y ++ map (fun i => w1 (state_after M (S i) h w)) (seq 0 n)).
Proof.
  induction n as [|n IH]; intros fuel h w X Y H.
  - cbn [Nat.add seq map state_after]. rewrite !app_nil_r. reflexivity.
  - cbn [Nat.add]. rewrite flight_S.
    pose proof (H O ltac:(lia)) as H0. cbn [state_after] in H0. rewrite H0.
    rewrite IH by (intros i Hi; apply (H (S i)); lia).
    cbn [seq map]. rewrite <- !seq_shift, !map_map, <- !app_assoc.
    reflexivity.
Qed.

(** X8: if the states after 0, 1, ..., [n] steps are in the air and the state
    after [n + 1] steps is not, the call returns, with any fuel above [n],
    the [n + 1] samples of the states after 1, ..., [n + 1] steps. *)
Theorem projectile_motion_returns (n fuel : nat) (h theta : float) :
  (forall i, (i <= n)%nat ->
     (0 <=? w1 (state_after M i h (shoot M theta v_0))) = true) ->
  (0 <=? w1 (state_after M (S n) h (shoot M theta v_0))) = false ->
  projectile_motion M (S n + fuel) h theta
  = Returned
      (map (fun i => w0 (state_after M (S i) h (shoot M theta v_0)))
           (seq 0 (S n)),
       map (fun i => w1 (state_after M (S i) h (shoot M theta v_0)))
           (seq 0 (S n))).
Proof.
  intros Hair Hend. unfold projectile_motion.
  rewrite flight_steps by (intros i Hi; apply Hair; lia).
  apply flight_not_airborne, Hend.
Qed.

End NaNVelocity.

Lemma RK4_step_nan_velocity_witness :
  w1 (RK4_step (f ref_libm) (Vec 0 100 nan nan) 0.1) = nan.
Proof.
  apply (RK4_step_nan_velocity ref_libm (Vec 0 100 nan nan) 0.1). reflexivity.
Defined.

Lemma RK4_step_keeps_nan_witness :
  w1 (RK4_step (f ref_libm) (Vec 0 nan 3 4) 0.1) = nan.
Proof.
  apply (RK4_step_keeps_nan (f ref_libm) (Vec 0 nan 3 4) 0.1). reflexivity.
Defined.

(** The launch at 1 degree with the step length 1: five states in the air,
    the sixth below the ground. *)
Lemma projectile_motion_returns_witness :
  projectile_motion ref_libm (6 + 0) 1 1
  = Returned
      (map (fun i => w0 (state_after ref_libm (S i) 1 (shoot ref_libm 1 v_0)))
           (seq 0 6),
       map (fun i => w1 (state_after ref_libm (S i) 1 (shoot ref_libm 1 v_0)))
           (seq 0 6)).
Proof.
  apply (projectile_motion_returns ref_libm 5 0 1 1).
  - intros i Hi. do 6 (destruct i as [|i]; [vm_compute; reflexivity|]). lia.
  - vm_compute. reflexivity.
Defined.

(** * More on the search *)

Lemma for_each_app {A S : Type} (body : S -> A -> outcome S) (l1 l2 : list A) :
  forall st : S,
  for_each body (l1 ++ l2) st
  = (st1 <- for_each body l1 st ;; for_each body l2 st1).
Proof.
  induction l1 as [|x l1 IH]; intros st; [reflexivity|].
  cbn [app for_each]. destruct (body st x); cbn [bind]; auto.
Qed.

Lemma track_in (ps : list (float * float)) :
  forall r0 o0 rec opt,
  fold_left track ps (r0, o0) = (rec, opt) ->
  opt = o0 \/ In opt (map fst ps).
Proof.
  induction ps as [|[th r] ps IH]; intros r0 o0 rec opt H.
  - injection H as _ <-. auto.
  - cbn [fold_left] in H. unfold track at 2 in H. cbn [fst snd] in H.
    destruct (r0 <=? r); apply IH in H; cbn [map fst];
      destruct H as [->|H]; auto; right; [left|right|right]; auto.
Qed.

Lemma landing_point_returns (X Y : list float) :
  (2 <= length X)%nat -> (2 <= length Y)%nat ->
  exists v, landing_point X Y = Returned v.
Proof.
  intros HX HY. unfold landing_point.
  rewrite !(neg_index_nth Y) by lia. rewrite !(neg_index_nth X) by lia.
  cbn [bind]. eauto.
Qed.

Section SweepMore.

Variable M : libm.
Variables (fuel : nat) (h : float).

Lemma range_at_raised (th : float) (e : exn) :
  range_at M fuel h th = Raised e ->
  exists x y : float, projectile_motion M fuel h th = Returned ([x], [y]).
Proof.
  unfold range_at. intros H.
  destruct (projectile_motion M fuel h th) as [[X Y]|e'|] eqn:E;
    cbn [bind] in H; try discriminate.
  - pose proof E as E'. unfold projectile_motion in E'.
    apply flight_returned in E'.
    destruct E' as (n & HX & HY & _ & Hend). cbn [app] in HX, HY.
    destruct n as [|[|n]].
    + cbn [state_after shoot w1] in Hend.
      change (0 <=? 0) with true in Hend. discriminate.
    + rewrite HX, HY. cbn [seq map]. eauto.
    + destruct (landing_point_returns X Y) as [v Hv];
        [rewrite HX, length_map, length_seq; lia
        |rewrite HY, length_map, length_seq; lia|].
      rewrite Hv in H. discriminate.
  - exfalso. apply (projectile_motion_never_raises M fuel h th e'), E.
Qed.

Lemma coarse_loop_raised (l : list float) :
  forall (st : sweep) (e : exn),
  for_each (coarse_body M fuel h) l st = Raised e ->
  exists th, In th l /\ range_at M fuel h th = Raised e.
Proof.
  induction l as [|th l IH]; intros st e H; [discriminate|].
  cbn [for_each] in H. rewrite coarse_body_eq in H.
  destruct (range_at M fuel h th) as [r|e'|] eqn:E; cbn [bind] in H;
    try discriminate.
  - apply IH in H. destruct H as (th' & Hin & Hr).
    exists th'. split; [right|]; assumption.
  - injection H as ->. exists th. split; [left; reflexivity | assumption].
Qed.

(** The state of the search after a returning first loop, loop by loop: the
    first 44 angles, then 89 degrees. *)
Lemma sweep_after_coarse (st : sweep) :
  coarse_pass M fuel h = Returned st ->
  exists r rec44 opt44 : float,
    range_at M fuel h 89 = Returned r /\
    last (range_list st) 0 = r /\
    (opt44 = 0 \/ In opt44 (removelast coarse_angles)) /\
    (record st, optimal_angle st) = track (rec44, opt44) (89, r) /\
    theta st = 89 /\
    theta_list st = coarse_angles /\
    length (range_list st) = 45%nat.
Proof.
  unfold coarse_pass.
  change coarse_angles with (removelast coarse_angles ++ [89]).
  rewrite for_each_app. intros H.
  destruct (for_each (coarse_body M fuel h) (removelast coarse_angles)
              (Sweep 0 0 [] [] 0)) as [st44| |] eqn:E44;
    cbn [bind] in H; try discriminate.
  apply coarse_loop in E44.
  destruct E44 as (ps & Hfst & _ & Hth & Hr & Hbest & _).
  cbn [theta_list range_list record optimal_angle app] in Hth, Hr, Hbest.
  cbn [for_each] in H. rewrite coarse_body_eq in H.
  destruct (range_at M fuel h 89) as [r| |] eqn:E; cbn [bind] in H;
    try discriminate.
  injection H as <-. cbn [record optimal_angle theta theta_list range_list].
  exists r, (record st44), (optimal_angle st44).
  split; [reflexivity|]. split; [apply last_last|]. split.
  { symmetry in Hbest. apply track_in in Hbest. rewrite Hfst in Hbest.
    assumption. }
  split; [destruct (track (record st44, optimal_angle st44) (89, r));
          reflexivity|].
  split; [reflexivity|]. split.
  - rewrite Hth, Hfst. reflexivity.
  - rewrite Hr, length_app, length_map, <- (length_map fst), Hfst.
    reflexivity.
Qed.

Lemma find_after_coarse (st : sweep) :
  coarse_pass M fuel h = Returned st ->
  exists r : float,
    last (range_list st) 0 = r /\
    find_optimal_angle M fuel h
    = Returned (theta_list st, range_list st,
                if record st <=? r then 91 else optimal_angle st) /\
    ((record st <=? r) = true \/
     optimal_angle st = 0 \/ In (optimal_angle st) (removelast coarse_angles)).
Proof.
  intros Hc.
  destruct (sweep_after_coarse st Hc)
    as (r & rec44 & opt44 & Hr & Hlast & Hin & Htrack & Htheta & _ & _).
  exists r. split; [assumption|].
  unfold find_optimal_angle, refine_pass. rewrite Hc. cbn [bind].
  destruct (refine_angles_last st) as (l & -> & _).
  rewrite <- Htheta in Hr. rewrite (refine_loop M fuel h l st _ r Hr).
  cbn [bind]. unfold track in Htrack. cbn [fst snd] in Htrack.
  destruct (rec44 <=? r) eqn:E; injection Htrack as H1 H2.
  - destruct (F64.leb_not_nan _ _ E) as [_ Hn].
    rewrite H1, (F64.leb_refl _ Hn).
    cbn [theta_list range_list optimal_angle]. rewrite H2.
    split; [reflexivity | left; reflexivity].
  - rewrite H1, E, H2. split; [reflexivity | right; exact Hin].
Qed.

(** X9: after a returning first loop the record is a number that is at least 0:
    it is never not-a-number, and a range that is not-a-number is never the
    record. *)
Theorem coarse_pass_record_nonneg (st : sweep) :
  coarse_pass M fuel h = Returned st ->
  (0 <=? record st) = true /\ is_nan (record st) = false.
Proof.
  intros H. unfold coarse_pass in H. apply coarse_loop in H.
  destruct H as (ps & _ & _ & _ & _ & Hbest & _).
  cbn [record optimal_angle] in Hbest. symmetry in Hbest.
  apply track_best in Hbest; [|reflexivity].
  destruct Hbest as (Hle & _). split; [assumption|].
  apply (F64.leb_not_nan _ _ Hle).
Qed.

(** X10: when the first loop returns, the whole search returns: the second loop
    raises nothing and ends.  The lists are those of the first loop, and the
    angle is the optimal angle of the first loop, unless the last range, that
    of 89 degrees, is the record: then the angle is 91. *)
Theorem find_optimal_angle_after_coarse (st : sweep) :
  coarse_pass M fuel h = Returned st ->
  find_optimal_angle M fuel h
  = Returned (theta_list st, range_list st,
              if record st <=? last (range_list st) 0 then 91
              else optimal_angle st).
Proof.
  intros Hc. destruct (find_after_coarse st Hc) as (r & -> & H & _).
  exact H.
Qed.

(** X11: the search returns the 45 angles 1, 3, ..., 89, 45 ranges, and an
    angle that is 0, one of 1, 3, ..., 87, or 91; it is never 89. *)
Theorem find_optimal_angle_values (tl rl : list float) (best : float) :
  find_optimal_angle M fuel h = Returned (tl, rl, best) ->
  tl = [1; 3; 5; 7; 9; 11; 13; 15; 17; 19; 21; 23; 25; 27; 29; 31; 33; 35;
        37; 39; 41; 43; 45; 47; 49; 51; 53; 55; 57; 59; 61; 63; 65; 67; 69;
        71; 73; 75; 77; 79; 81; 83; 85; 87; 89] /\
  length rl = 45%nat /\
  In best [0; 1; 3; 5; 7; 9; 11; 13; 15; 17; 19; 21; 23; 25; 27; 29; 31; 33;
           35; 37; 39; 41; 43; 45; 47; 49; 51; 53; 55; 57; 59; 61; 63; 65;
           67; 69; 71; 73; 75; 77; 79; 81; 83; 85; 87; 91] /\
  (best =? 89) = false.
Proof.
  intros H.
  destruct (coarse_pass M fuel h) as [st| |] eqn:Hc;
    try (unfold find_optimal_angle in H; rewrite Hc in H; discriminate).
  destruct (sweep_after_coarse st Hc)
    as (r0 & rec44 & opt44 & _ & _ & _ & _ & _ & Htl & Hlen).
  destruct (find_after_coarse st Hc) as (r & _ & Hf & Hin).
  rewrite Hf in H. injection H as <- <- <-.
  split; [rewrite Htl; apply coarse_angles_eq|]. split; [assumption|].
  assert (Hb : In (if record st <=? r then 91 else optimal_angle st)
                  (0 :: removelast coarse_angles ++ [91])).
  { destruct (record st <=? r).
    - right. apply in_or_app. right. left. reflexivity.
    - destruct Hin as [Hin|[->|Hin]]; [discriminate|left; reflexivity|].
      right. apply in_or_app. left. exact Hin. }
  split; [exact Hb|].
  clear -Hb. revert Hb.
  generalize (if record st <=? r then 91 else optimal_angle st). intros b Hb.
  change (0 :: removelast coarse_angles ++ [91]) with
    [0; 1; 3; 5; 7; 9; 11; 13; 15; 17; 19; 21; 23; 25; 27; 29; 31; 33;
     35; 37; 39; 41; 43; 45; 47; 49; 51; 53; 55; 57; 59; 61; 63; 65;
     67; 69; 71; 73; 75; 77; 79; 81; 83; 85; 87; 91] in Hb.
  repeat (destruct Hb as [<-|Hb]; [reflexivity|]). destruct Hb.
Qed.

(** X12: the search raises only when the trajectory of one of the angles 1, 3,
    ..., 89 has a single sample. *)
Theorem find_optimal_angle_raises (e : exn) :
  find_optimal_angle M fuel h = Raised e ->
  exists th x y : float,
    In th coarse_angles /\
    projectile_motion M fuel h th = Returned ([x], [y]).
Proof.
  intros H.
  destruct (coarse_pass M fuel h) as [st|e'|] eqn:Hc.
  - destruct (find_after_coarse st Hc) as (r & _ & Hf & _).
    rewrite Hf in H. discriminate.
  - unfold coarse_pass in Hc. apply coarse_loop_raised in Hc.
    destruct Hc as (th & Hin & Hr). apply range_at_raised in Hr.
    destruct Hr as (x & y & Hr). exists th, x, y. auto.
  - unfold find_optimal_angle in H. rewrite Hc in H. discriminate.
Qed.

End SweepMore.

(** The run of the program, with the step length 0.1. *)
Lemma coarse_pass_record_nonneg_witness :
  exists st : sweep,
    coarse_pass ref_libm 3000 0.1 = Returned st /\
    (0 <=? record st) = true /\ is_nan (record st) = false.
Proof.
  eexists. split.
  - rewrite coarse_pass_acc_eq. vm_compute. reflexivity.
  - apply (coarse_pass_record_nonneg ref_libm 3000 0.1).
    rewrite coarse_pass_acc_eq. vm_compute. reflexivity.
Defined.

(** The run of the program, with the step length 0.1: the angle is the 43
    degrees of the first loop. *)
Lemma find_optimal_angle_after_coarse_witness :
  exists st : sweep,
    coarse_pass ref_libm 3000 0.1 = Returned st /\
    find_optimal_angle ref_libm 3000 0.1
    = Returned (theta_list st, range_list st, 43).
Proof.
  eexists. split.
  - rewrite coarse_pass_acc_eq. vm_compute. reflexivity.
  - etransitivity.
    + eapply (find_optimal_angle_after_coarse ref_libm 3000 0.1).
      rewrite coarse_pass_acc_eq. vm_compute. reflexivity.
    + reflexivity.
Defined.

(** The search with the step length 1. *)
Lemma find_optimal_angle_values_witness :
  exists (tl rl : list float) (best : float),
    find_optimal_angle ref_libm 1000 1 = Returned (tl, rl, best) /\
    tl = coarse_angles /\
    length rl = 45%nat /\
    In best (0 :: removelast coarse_angles ++ [91]) /\
    (best =? 89) = false.
Proof.
  eexists. eexists. eexists. split.
  - vm_compute. reflexivity.
  - apply (find_optimal_angle_values ref_libm 1000 1).
    vm_compute. reflexivity.
Defined.

(** The search with the step length 1000: the trajectory of the launch at 1
    degree has a single sample. *)
Lemma find_optimal_angle_raises_witness :
  find_optimal_angle ref_libm 10 1000 = Raised IndexError /\
  exists th x y : float,
    In th coarse_angles /\
    projectile_motion ref_libm 10 1000 th = Returned ([x], [y]).
Proof.
  split; [vm_compute; reflexivity|].
  apply (find_optimal_angle_raises ref_libm 10 1000 IndexError).
  vm_compute. reflexivity.
Defined.

(** * The first loop, from the trajectories *)

Lemma landing_point_inv (X Y : list float) (v : float) :
  landing_point X Y = Returned v ->
  (2 <= length X)%nat /\ (2 <= length Y)%nat /\ v = interpolation X Y.
Proof.
  intros H.
  assert (HY : (2 <= length Y)%nat).
  { destruct (le_lt_dec 2 (length Y)) as [L|L]; [assumption|]. exfalso.
    unfold landing_point in H.
    destruct (neg_index_cases Y 1) as [[y E]|E]; rewrite E in H;
      cbn [bind] in H; [|discriminate].
    rewrite (neg_index_short Y 2 L) in H. discriminate. }
  assert (HX : (2 <= length X)%nat).
  { destruct (le_lt_dec 2 (length X)) as [L|L]; [assumption|]. exfalso.
    unfold landing_point in H.
    rewrite !(neg_index_nth Y) in H by lia. cbn [bind] in H.
    destruct (neg_index_cases X 1) as [[x E]|E]; rewrite E in H;
      cbn [bind] in H; [|discriminate].
    rewrite (neg_index_short X 2 L) in H. discriminate. }
  split; [assumption|]. split; [assumption|].
  unfold landing_point in H.
  rewrite !(neg_index_nth Y) in H by lia.
  rewrite !(neg_index_nth X) in H by lia.
  cbn [bind] in H. injection H as <-. reflexivity.
Qed.

Section CoarseTrajectories.

Variable M : libm.
Variables (fuel : nat) (h : float).

Lemma projectile_motion_lengths (th : float) (X Y : list float) :
  projectile_motion M fuel h th = Returned (X, Y) -> length X = length Y.
Proof.
  unfold projectile_motion. intros H. apply flight_returned in H.
  destruct H as (n & -> & -> & _). cbn [app].
  rewrite !length_map. reflexivity.
Qed.

Lemma range_at_inv (th r : float) :
  range_at M fuel h th = Returned r ->
  exists X Y : list float,
    projectile_motion M fuel h th = Returned (X, Y) /\
    (2 <= length X)%nat /\ (2 <= length Y)%nat /\
    r = interpolation X Y.
Proof.
  unfold range_at. intros H.
  destruct (projectile_motion M fuel h th) as [[X Y]| |];
    cbn [bind] in H; try discriminate.
  apply landing_point_inv in H. exists X, Y. tauto.
Qed.

Lemma range_at_total (th : float) (X Y : list float) :
  projectile_motion M fuel h th = Returned (X, Y) ->
  (2 <= length Y)%nat ->
  exists r : float, range_at M fuel h th = Returned r.
Proof.
  intros H HY. pose proof (projectile_motion_lengths th X Y H) as L.
  unfold range_at. rewrite H. cbn [bind].
  apply landing_point_returns; lia.
Qed.

Lemma coarse_loop_total (l : list float) :
  (forall th, In th l -> exists r, range_at M fuel h th = Returned r) ->
  forall st : sweep,
  exists st' : sweep, for_each (coarse_body M fuel h) l st = Returned st'.
Proof.
  induction l as [|th l IH]; intros H st; [exists st; reflexivity|].
  cbn [for_each]. rewrite coarse_body_eq.
  destruct (H th (or_introl eq_refl)) as [r ->]. cbn [bind].
  apply IH. intros th' Hin. apply H. right. assumption.
Qed.

(** C8, as the code has it: provided that the trajectory of each of the
    angles 1, 3, ..., 89 returns with two samples or more, the first loop
    completes; it has tested these 45 angles and no others, in this order,
    and recorded for each the range interpolated on the last two samples of
    its trajectory.  The record is at least 0 and at least every range that
    is a number; a range that is not-a-number is recorded and never becomes
    the record.  Either no range is at least 0 and the record and its angle
    are the initial 0, or the record is the range of the angle recorded with
    it and every later range is below it or not-a-number: with [>=], the last
    angle that reaches the record wins. *)
Theorem coarse_pass_spec :
  (forall th, In th coarse_angles ->
     exists X Y : list float,
       projectile_motion M fuel h th = Returned (X, Y) /\
       (2 <= length Y)%nat) ->
  exists st : sweep,
    coarse_pass M fuel h = Returned st /\
    theta_list st =
      [1; 3; 5; 7; 9; 11; 13; 15; 17; 19; 21; 23; 25; 27; 29; 31; 33; 35; 37;
       39; 41; 43; 45; 47; 49; 51; 53; 55; 57; 59; 61; 63; 65; 67; 69; 71; 73;
       75; 77; 79; 81; 83; 85; 87; 89] /\
    Forall2 (fun th r =>
               exists X Y : list float,
                 projectile_motion M fuel h th = Returned (X, Y) /\
                 r = interpolation X Y)
            (theta_list st) (range_list st) /\
    (0 <=? record st) = true /\
    (forall r, In r (range_list st) ->
       is_nan r = true \/ (r <=? record st) = true) /\
    ((record st = 0 /\ optimal_angle st = 0 /\
      forall r, In r (range_list st) -> (0 <=? r) = false) \/
     (exists ths1 ths2 rs1 rs2,
        theta_list st = ths1 ++ optimal_angle st :: ths2 /\
        range_list st = rs1 ++ record st :: rs2 /\
        length ths1 = length rs1 /\
        forall r, In r rs2 -> is_nan r = true \/ (r <? record st) = true)).
Proof.
  intros Hfl.
  assert (Hr : forall th, In th coarse_angles ->
                 exists r, range_at M fuel h th = Returned r).
  { intros th Hin. destruct (Hfl th Hin) as (X & Y & HXY & HY).
    apply (range_at_total th X Y HXY HY). }
  destruct (coarse_loop_total coarse_angles Hr (Sweep 0 0 [] [] 0))
    as [st Hst].
  exists st. split; [exact Hst|].
  apply coarse_loop in Hst.
  destruct Hst as (ps & Hfst & Hall & Hth & Hrl & Hbest & _).
  cbn [theta_list range_list record optimal_angle app] in *.
  symmetry in Hbest.
  apply track_best in Hbest; [|reflexivity].
  destruct Hbest as (Hle & Hmax & Hlast).
  destruct (F64.leb_not_nan _ _ Hle) as [_ Hnan].
  rewrite Hth, Hrl. split; [rewrite Hfst; apply coarse_angles_eq|].
  split; [|split; [exact Hle|split]].
  - clear -Hall. induction Hall as [|p ps Hp _ IH]; constructor; [|assumption].
    apply range_at_inv in Hp. destruct Hp as (X & Y & HXY & _ & _ & Hv).
    exists X, Y. split; assumption.
  - intros r Hin. apply in_map_iff in Hin. destruct Hin as (p & <- & Hp).
    destruct (F64.ltb_false_cases _ _ (Hmax p Hp)) as [L|[N|N]]; auto.
    congruence.
  - destruct Hlast as [(-> & -> & Hl)|(l1 & l2 & -> & Hl)].
    + left. repeat split. intros r Hin.
      apply in_map_iff in Hin. destruct Hin as (p & <- & Hp). apply Hl, Hp.
    + right. exists (map fst l1), (map fst l2), (map snd l1), (map snd l2).
      rewrite !map_app, !length_map. cbn [map fst snd].
      repeat split. intros r Hin.
      apply in_map_iff in Hin. destruct Hin as (p & <- & Hp).
      destruct (F64.leb_false_cases _ _ (Hl p Hp)) as [L|[N|N]]; auto.
      congruence.
Qed.

(** The hypothesis of [coarse_pass_spec], checked by running the loop. *)
Lemma long_flights_check (l : list float) :
  forallb (fun th =>
             match flight_acc M fuel h (shoot M th v_0) [] [] with
             | Returned (_, Y) => (2 <=? length Y)%nat
             | _ => false
             end) l = true ->
  forall th, In th l ->
    exists X Y : list float,
      projectile_motion M fuel h th = Returned (X, Y) /\
      (2 <= length Y)%nat.
Proof.
  intros H th Hin. rewrite forallb_forall in H. specialize (H th Hin).
  unfold projectile_motion. rewrite flight_acc_eq. cbn [rev].
  destruct (flight_acc M fuel h (shoot M th v_0) [] []) as [[X Y]| |];
    try discriminate.
  exists X, Y. split; [reflexivity|]. apply Nat.leb_le. assumption.
Qed.

End CoarseTrajectories.

(** C8 on the run of the program, with the step length 0.1. *)
Lemma coarse_pass_spec_witness :
  exists st : sweep,
    coarse_pass ref_libm 3000 0.1 = Returned st /\
    theta_list st = coarse_angles /\
    Forall2 (fun th r =>
               exists X Y : list float,
                 projectile_motion ref_libm 3000 0.1 th = Returned (X, Y) /\
                 r = interpolation X Y)
            (theta_list st) (range_list st) /\
    (0 <=? record st) = true /\
    (forall r, In r (range_list st) ->
       is_nan r = true \/ (r <=? record st) = true) /\
    ((record st = 0 /\ optimal_angle st = 0 /\
      forall r, In r (range_list st) -> (0 <=? r) = false) \/
     (exists ths1 ths2 rs1 rs2,
        theta_list st = ths1 ++ optimal_angle st :: ths2 /\
        range_list st = rs1 ++ record st :: rs2 /\
        length ths1 = length rs1 /\
        forall r, In r rs2 -> is_nan r = true \/ (r <? record st) = true)).
Proof.
  apply (coarse_pass_spec ref_libm 3000 0.1).
  apply long_flights_check. vm_compute. reflexivity.
Defined.

(** C8 as stated fails.  With the step length 1000 the first loop stops at
    its first angle, on the [IndexError] of a trajectory of one sample; with
    the step length 0 it never leaves the trajectory of its first angle.  On
    the run of the program, with the step length 0.1, the range recorded for
    45 degrees is not-a-number, and the record is not at least that range. *)
Lemma coarse_pass_incomplete :
  coarse_pass ref_libm 10 1000 = Raised IndexError /\
  (forall fuel : nat, coarse_pass ref_libm fuel 0 = OutOfFuel) /\
  (exists st : sweep,
     coarse_pass ref_libm 3000 0.1 = Returned st /\
     nth 22 (theta_list st) 0 = 45 /\
     nth 22 (range_list st) 0 = nan /\
     (nth 22 (range_list st) 0 <=? record st) = false).
Proof.
  split; [vm_compute; reflexivity|]. split.
  - intros fuel. unfold coarse_pass.
    change coarse_angles with (1 :: tl coarse_angles).
    cbn [for_each]. rewrite coarse_body_eq.
    unfold range_at, projectile_motion.
    rewrite flight_fixed_point by (vm_compute; reflexivity).
    reflexivity.
  - eexists. split.
    + rewrite coarse_pass_acc_eq. vm_compute. reflexivity.
    + repeat split.
Qed.
